(** * Narration timing and frame/audio synchronisation

    A shallow embedding of [src/utils/timing.ts] (speaking-duration
    estimate, silence-marker parsing, timing segments, frame durations) and
    of the audio and timing steps of [src/stages/video.ts].

    Conventions of the embedding:
    - a JavaScript string is the list of its UTF-16 code units ([N]);
    - a JavaScript [number] that holds a time is an exact rational ([Q]):
      the arithmetic of the source is kept operation for operation, but
      without the rounding of IEEE doubles;
    - array lengths, loop counters and indices are natural numbers. *)

From Stdlib Require Import List Bool Arith ZArith NArith QArith Qround Lia Lqa.
From Stdlib Require Import Strings.String Strings.Ascii.
Import ListNotations.

Open Scope Q_scope.

(** ** JavaScript built-ins used by the source *)

Module JS.

Definition char := N.
Definition jsstring := list char.

(** A literal of the source, as code units. *)
Definition str (s : string) : jsstring :=
  map N_of_ascii (list_ascii_of_string s).

(** ECMAScript [WhiteSpace] and [LineTerminator] code units: what [\s]
    matches and what [String.prototype.trim] strips. *)
Definition is_space (c : char) : bool :=
  ((9 <=? c) && (c <=? 13) || (c =? 32) || (c =? 160) || (c =? 5760)
   || (8192 <=? c) && (c <=? 8202) || (c =? 8232) || (c =? 8233)
   || (c =? 8239) || (c =? 8287) || (c =? 12288) || (c =? 65279))%N.

(** [\d] without the unicode flag: the ASCII digits. *)
Definition is_digit (c : char) : bool := ((48 <=? c) && (c <=? 57))%N.

Fixpoint trimStart (s : jsstring) : jsstring :=
  match s with
  | [] => []
  | c :: rest => if is_space c then trimStart rest else s
  end.

Fixpoint trimEnd (s : jsstring) : jsstring :=
  match s with
  | [] => []
  | c :: rest =>
      match trimEnd rest with
      | [] => if is_space c then [] else [c]
      | kept => c :: kept
      end
  end.

Definition trim (s : jsstring) : jsstring := trimEnd (trimStart s).

(** A string is truthy when it is not empty. *)
Definition truthy (s : jsstring) : bool :=
  match s with [] => false | _ => true end.

(** [s.split(/\s+/)]: every maximal run of white space is one separator;
    the piece before a separator is pushed when the run starts, and the
    piece after the last separator is pushed at the end (so the empty
    string gives one empty piece).  [in_run] records that the previous code
    unit belonged to the separator being consumed; [acc] is the current
    piece, reversed. *)
Fixpoint split_ws_from (in_run : bool) (acc s : jsstring) : list jsstring :=
  match s with
  | [] => [rev acc]
  | c :: rest =>
      if is_space c then
        if in_run then split_ws_from true acc rest
        else rev acc :: split_ws_from true [] rest
      else split_ws_from false (c :: acc) rest
  end.

Definition split_ws (s : jsstring) : list jsstring := split_ws_from false [] s.

(** [Math.max] on two numbers. *)
Definition Math_max (a b : Q) : Q :=
  match a ?= b with
  | Lt => b
  | _ => a
  end.

(** [Math.ceil], [Math.min] on the non-negative integers that index arrays. *)
Definition Math_ceil (x : Q) : nat := Z.to_nat (Qceiling x).
Definition Math_min (a b : nat) : nat := Nat.min a b.

(** A length or counter used in arithmetic. *)
Definition num (n : nat) : Q := inject_Z (Z.of_nat n).

(** [parseInt] on the text of a [(\d+)] capture: the decimal value of the
    leading digits. *)
Definition digit_value (c : char) : Z := Z.of_N c - 48.

Fixpoint parseInt_from (acc : Z) (s : jsstring) : Z :=
  match s with
  | [] => acc
  | c :: rest =>
      if is_digit c then parseInt_from (10 * acc + digit_value c) rest
      else acc
  end.

Definition parseInt (s : jsstring) : Q := inject_Z (parseInt_from 0 s).

(** [arr.slice(a, b)] for [0 <= a] and [0 <= b <= arr.length]. *)
Definition slice {A} (a b : nat) (l : list A) : list A :=
  firstn (b - a) (skipn a l).

End JS.

Import JS.

(** ** The silence-marker pattern [\[\[slnc (\d+)\]\]] *)

Module Marker.

Fixpoint strip_prefix (p s : jsstring) : option jsstring :=
  match p, s with
  | [], _ => Some s
  | _ :: _, [] => None
  | a :: p', b :: s' => if (a =? b)%N then strip_prefix p' s' else None
  end.

(** The longest run of digits at the head of [s], and what follows it. *)
Fixpoint span_digits (s : jsstring) : jsstring * jsstring :=
  match s with
  | [] => ([], [])
  | c :: rest =>
      if is_digit c then
        let (d, t) := span_digits rest in (c :: d, t)
      else ([], s)
  end.

Definition opening : jsstring := str "[[slnc ".
Definition closing : jsstring := str "]]".

(** The pattern matched at the head of [s]: the text of the capture group.
    [\d+] is greedy and is followed by a bracket, so the only candidate is
    the whole run of digits. *)
Definition match_at (s : jsstring) : option jsstring :=
  match strip_prefix opening s with
  | None => None
  | Some r =>
      let (d, t) := span_digits r in
      match d with
      | [] => None
      | _ :: _ =>
          match strip_prefix closing t with
          | None => None
          | Some _ => Some d
          end
      end
  end.

(** The text of a marker whose capture is [d]. *)
Definition marker_text (d : jsstring) : jsstring := opening ++ d ++ closing.

(** What a global scan of a string meets: a stretch of text without a
    match, or a match (kept by its capture). *)
Inductive part :=
| Text (s : jsstring)
| Match (digits : jsstring).

(** The leftmost non-overlapping matches of the pattern in [s], with the
    text between them: the iteration shared by [exec] with the [g] flag,
    [replace] with the [g] flag and [split].  After a match the search
    resumes at the end of the match: [skip] is the number of code units of
    the current match still to pass over; [acc] is the text since the last
    match, reversed. *)
Fixpoint scan_from (skip : nat) (acc s : jsstring) : list part :=
  match s with
  | [] => [Text (rev acc)]
  | c :: rest =>
      match skip with
      | S k => scan_from k acc rest
      | O =>
          match match_at s with
          | Some d =>
              Text (rev acc) :: Match d
                :: scan_from (Nat.pred (List.length (marker_text d))) [] rest
          | None => scan_from 0 (c :: acc) rest
          end
      end
  end.

Definition scan (s : jsstring) : list part := scan_from 0 [] s.

(** [while ((match = regex.exec(text)) !== null)]: the captures [match[1]]
    of the successive matches. *)
Definition exec_all (s : jsstring) : list jsstring :=
  flat_map (fun p => match p with Text _ => [] | Match d => [d] end) (scan s).

(** [text.replace(regex, '')] with the [g] flag. *)
Definition replace_all (s : jsstring) : jsstring :=
  flat_map (fun p => match p with Text t => t | Match _ => [] end) (scan s).

(** [text.split(/(\[\[slnc \d+\]\])/)]: the pieces of text and, between
    them, the capture of the separator, which here is the whole marker. *)
Definition split (s : jsstring) : list jsstring :=
  map (fun p => match p with Text t => t | Match d => marker_text d end)
      (scan s).

(** [part.match(/\[\[slnc (\d+)\]\]/)]: the capture of the first match, or
    [None] for [null]. *)
Definition String_match (s : jsstring) : option jsstring :=
  match exec_all s with
  | [] => None
  | d :: _ => Some d
  end.

End Marker.

(** ** [src/utils/timing.ts] *)

Module Timing.

Inductive PresentationStyle := beginner | technical | overview.

Record NarrationTiming := {
  text : jsstring;
  startTime : Q;
  duration : Q
}.

(** [style === 'beginner' ? 130 : style === 'overview' ? 170 : 150] *)
Definition wpm (style : PresentationStyle) : Q :=
  match style with
  | beginner => 130
  | overview => 170
  | _ => 150
  end.

(** [text.trim().split(/\s+/).length] *)
Definition words (text : jsstring) : nat := List.length (split_ws (trim text)).

Definition calculateSpeakingDuration
    (text : jsstring) (style : PresentationStyle) : Q :=
  let duration := (num (words text) / wpm style) * 60 in
  Math_max 2 duration.

Record ParsedMarkers := {
  cleanText : jsstring;
  totalSilence : Q
}.

Definition parseSilenceMarkers (text : jsstring) : ParsedMarkers :=
  let totalSilence :=
    fold_left (fun total d => total + parseInt d / 1000)
              (Marker.exec_all text) 0 in
  let cleanText := Marker.replace_all text in
  {| cleanText := cleanText; totalSilence := totalSilence |}.

Definition calculateTotalDuration
    (text : jsstring) (style : PresentationStyle) : Q :=
  let parsed := parseSilenceMarkers text in
  let speakingDuration := calculateSpeakingDuration (cleanText parsed) style in
  speakingDuration + totalSilence parsed.

(** One iteration of the loop of [createTimingSegments] over [parts]; the
    state is the array [segments] and [currentTime]. *)
Definition segment_step (style : PresentationStyle)
    (st : list NarrationTiming * Q) (part : jsstring)
    : list NarrationTiming * Q :=
  let (segments, currentTime) := st in
  match Marker.String_match part with
  | Some digits =>
      let silenceDuration := parseInt digits / 1000 in
      (segments ++ [{| text := []; startTime := currentTime;
                       duration := silenceDuration |}],
       currentTime + silenceDuration)
  | None =>
      if truthy (trim part) then
        let duration := calculateSpeakingDuration part style in
        (segments ++ [{| text := trim part; startTime := currentTime;
                         duration := duration |}],
         currentTime + duration)
      else st
  end.

Definition createTimingSegments
    (narration : jsstring) (style : PresentationStyle) : list NarrationTiming :=
  let parts := Marker.split narration in
  fst (fold_left (segment_step style) parts ([], 0)).

(** [segs.reduce((sum, seg) => sum + seg.duration, 0)] *)
Definition sum_durations (segs : list NarrationTiming) : Q :=
  fold_left (fun sum seg => sum + duration seg) segs 0.

Definition calculateFrameDurations
    (frameCount : nat) (audioSegments : list NarrationTiming) : list Q :=
  if (frameCount =? 0)%nat then []
  else if (List.length audioSegments =? 0)%nat then repeat 3 frameCount
  else if (List.length audioSegments <? frameCount)%nat then
    let segmentDuration := sum_durations audioSegments in
    let durationPerFrame := segmentDuration / num frameCount in
    map (fun _ => durationPerFrame) (seq 0 frameCount)
  else
    let segmentsPerFrame :=
      Math_ceil (num (List.length audioSegments) / num frameCount) in
    map (fun i =>
           let startIdx := (i * segmentsPerFrame)%nat in
           let endIdx :=
             Math_min ((i + 1) * segmentsPerFrame) (List.length audioSegments) in
           let segments := slice startIdx endIdx audioSegments in
           sum_durations segments)
        (seq 0 frameCount).

End Timing.

Import Timing.


(** ** [src/stages/video.ts] *)

Module Video.

(** A step of the pipeline returns or throws. *)
Inductive result (A : Type) :=
| Ok (a : A)
| Throw (e : string).
Arguments Ok {A} a.
Arguments Throw {A} e.

Definition bind {A B} (r : result A) (k : A -> result B) : result B :=
  match r with
  | Ok a => k a
  | Throw e => Throw e
  end.

Notation "x <- r ;; k" := (bind r (fun x => k))
  (at level 61, r at next level, right associativity).

Definition path := string.

Record VideoScript := {
  fullNarrative : jsstring
}.

(** What the collaborators of one run answer: the frame generator, the
    speech synthesiser behind [AudioGenerator.generateAudio], the file
    system ([fs.stat] of the audio file: [None] when it throws, else the
    size), and the video compiler. *)
Record Collaborators := {
  generateFrames : result (list path);
  tts_generateAudio : result unit;
  stat_size : option Z;
  initialize : result unit;
  convertFramesToPng : list path -> result (list path);
  checkFFmpeg : result bool;
  getFFmpegVersion : result string;
  compileVideo : list path -> list Q -> option path -> path -> result unit
}.

Record VideoGenerationResult := {
  videoPath : path;
  duration : Q;
  frameCount : nat;
  hasAudio : bool;
  tempFiles : list path
}.

(** [AudioGenerator.generateAudio]: synthesise, then estimate the duration. *)
Definition generateAudio (c : Collaborators) (script : VideoScript)
    (style : PresentationStyle) : result Q :=
  _ <- tts_generateAudio c ;;
  Ok (calculateTotalDuration (fullNarrative script) style).

(** [AudioGenerator.validateAudio]: [stats.size > 0], [false] when [fs.stat]
    throws. *)
Definition validateAudio (c : Collaborators) : bool :=
  match stat_size c with
  | Some size => (0 <? size)%Z
  | None => false
  end.

(** Step 2 of [generateVideo]: the inner [try]/[catch].  Returns
    [audioDuration] and [hasAudio]. *)
Definition audio_step (c : Collaborators) (script : VideoScript)
    (style : PresentationStyle) : Q * bool :=
  match generateAudio c script style with
  | Ok audioDuration => (audioDuration, validateAudio c)
  | Throw _ => (0, false)
  end.

(** [htmlFrames.map((_, i) => i === 0 || i === htmlFrames.length - 1 ? 3 : 5)] *)
Definition default_durations {A} (htmlFrames : list A) : list Q :=
  map (fun i : nat =>
         if ((Z.of_nat i =? 0) ||
             (Z.of_nat i =? Z.of_nat (List.length htmlFrames) - 1))%Z
         then 3 else 5)
      (seq 0 (List.length htmlFrames)).

(** Step 3 of [generateVideo]. *)
Definition timing_step (hasAudio : bool) (audioDuration : Q)
    (htmlFrames : list path) (script : VideoScript)
    (style : PresentationStyle) : list Q :=
  if hasAudio && negb (Qle_bool audioDuration 0) then
    let segments := createTimingSegments (fullNarrative script) style in
    calculateFrameDurations (List.length htmlFrames) segments
  else default_durations htmlFrames.

(** [frameDurations.reduce((sum, d) => sum + d, 0)] *)
Definition sum_numbers (l : list Q) : Q := fold_left Qplus l 0.

(** [generateVideo]; [tempDir] stands for the directory named after
    [Date.now()].  The outer [catch] cleans up and throws the error again. *)
Definition generateVideo (c : Collaborators) (script : VideoScript)
    (style : PresentationStyle) (tempDir outputPath : path)
    : result VideoGenerationResult :=
  htmlFrames <- generateFrames c ;;
  let audioPath := (tempDir ++ "/narration.mp3")%string in
  let (audioDuration, hasAudio) := audio_step c script style in
  let frameDurations :=
    timing_step hasAudio audioDuration htmlFrames script style in
  _ <- initialize c ;;
  pngFrames <- convertFramesToPng c htmlFrames ;;
  ffmpegAvailable <- checkFFmpeg c ;;
  if negb ffmpegAvailable then
    Throw "FFmpeg is not installed or not available in PATH. Please install FFmpeg to continue."
  else
    _ <- getFFmpegVersion c ;;
    _ <- compileVideo c pngFrames frameDurations
           (if hasAudio then Some audioPath else None) outputPath ;;
    Ok {| videoPath := outputPath;
          duration := sum_numbers frameDurations;
          frameCount := List.length htmlFrames;
          hasAudio := hasAudio;
          tempFiles :=
            [tempDir] ++ htmlFrames
              ++ (if hasAudio then [audioPath] else []) ++ pngFrames |}.

End Video.

(** ** Vocabulary of the specification *)

Module Spec.

(** The word count as the specification words it: the number of
    white-space-delimited non-empty tokens.  [in_token] records that the
    previous code unit belonged to a token.  It is compared with [words],
    the count of the source, in [words_wordCount]. *)
Fixpoint count_tokens (in_token : bool) (s : jsstring) : nat :=
  match s with
  | [] => 0
  | c :: rest =>
      if is_space c then count_tokens false rest
      else ((if in_token then 0 else 1) + count_tokens true rest)%nat
  end.

Definition wordCount (s : jsstring) : nat := count_tokens false s.

(** A narration written as the script authors mean it: stretches of text
    and pause markers. *)
Inductive piece :=
| Plain (t : jsstring)
| Pause (digits : jsstring).

Definition bracket : char := 91%N.

(** Text without an opening bracket; a marker with at least one digit and
    only digits. *)
Definition well_formed (p : piece) : bool :=
  match p with
  | Plain t => forallb (fun c => negb (c =? bracket)%N) t
  | Pause d => truthy d && forallb is_digit d
  end.

Definition all_well_formed (ps : list piece) : Prop :=
  Forall (fun p => well_formed p = true) ps.

Definition render_piece (p : piece) : jsstring :=
  match p with
  | Plain t => t
  | Pause d => Marker.marker_text d
  end.

Definition render (ps : list piece) : jsstring := flat_map render_piece ps.

Definition plain_text (ps : list piece) : jsstring :=
  flat_map (fun p => match p with Plain t => t | Pause _ => [] end) ps.

(** A timeline that starts at [t]: every segment starts where the one
    before it ends. *)
Fixpoint timeline (t : Q) (segs : list NarrationTiming) : Prop :=
  match segs with
  | [] => True
  | s :: rest => startTime s = t /\ timeline (t + Timing.duration s) rest
  end.

(** The time reached after [segs] when starting at [t]. *)
Definition end_time (t : Q) (segs : list NarrationTiming) : Q :=
  fold_left (fun sum seg => sum + Timing.duration seg) segs t.

(** What the loop of [createTimingSegments] keeps true of its state:
    [segments] is a timeline from 0 that ends at [currentTime]. *)
Definition loop_invariant (st : list NarrationTiming * Q) : Prop :=
  timeline 0 (fst st) /\ snd st = end_time 0 (fst st).

(** The end of the last segment of a timeline. *)
Definition timeline_end (segs : list NarrationTiming) : option Q :=
  match rev segs with
  | [] => None
  | s :: _ => Some (startTime s + Timing.duration s)
  end.

(** The speech synthesis raised, or left no audio file, or an empty one. *)
Definition audio_failed (c : Video.Collaborators) : Prop :=
  (exists e, Video.tts_generateAudio c = Video.Throw e)
  \/ Video.stat_size c = None
  \/ Video.stat_size c = Some 0%Z.

(** The fallback pacing in words: 3 seconds for the first and the last
    frame, 5 seconds for every frame between them. *)
Definition three_five_three (frames : nat) : list Q :=
  match frames with
  | O => []
  | 1%nat => [3]
  | S (S interior) => 3 :: repeat 5 interior ++ [3]
  end.

End Spec.

(** ** Inputs used in the examples *)

Module Examples.

(** Scenario A of the specification. *)
Definition scenarioA : jsstring :=
  str "Hello world. [[slnc 500]] Next part here.".

(** A marker inside the digits of another one. *)
Definition nested_marker : jsstring := str "[[slnc [[slnc 1]]5]]".

(** A narration of four segments: two spoken parts, each followed by a
    pause of one second. *)
Definition two_parts_two_pauses : jsstring :=
  str "Intro text. [[slnc 1000]] Outro text. [[slnc 1000]]".

Definition six_words : jsstring := str "one two three four five six".
Definition three_words : jsstring := str "  one two   three ".

Definition silent_run : Video.Collaborators :=
  {| Video.generateFrames := Video.Ok ["title.html"; "file.html"; "outro.html"]%string;
     Video.tts_generateAudio := Video.Throw "say: command not found";
     Video.stat_size := None;
     Video.initialize := Video.Ok tt;
     Video.convertFramesToPng :=
       fun _ => Video.Ok ["title.png"; "file.png"; "outro.png"]%string;
     Video.checkFFmpeg := Video.Ok true;
     Video.getFFmpegVersion := Video.Ok "ffmpeg version 6.0"%string;
     Video.compileVideo := fun _ _ _ _ => Video.Ok tt |}.

End Examples.

(** ** More built-ins: remainders, number printing, padding, replacing *)

Module Builtins.

Definition Math_floor (x : Q) : Z := Qfloor x.

(** The integer part of [x], rounded towards zero. *)
Definition truncate (x : Q) : Z :=
  if Qle_bool 0 x then Qfloor x else Qceiling x.

(** [a % b]: the remainder has the sign of [a]. *)
Definition Number_rem (a b : Q) : Q := a - b * inject_Z (truncate (a / b)).

Fixpoint uint_units (d : Decimal.uint) : jsstring :=
  match d with
  | Decimal.Nil => []
  | Decimal.D0 d => 48%N :: uint_units d
  | Decimal.D1 d => 49%N :: uint_units d
  | Decimal.D2 d => 50%N :: uint_units d
  | Decimal.D3 d => 51%N :: uint_units d
  | Decimal.D4 d => 52%N :: uint_units d
  | Decimal.D5 d => 53%N :: uint_units d
  | Decimal.D6 d => 54%N :: uint_units d
  | Decimal.D7 d => 55%N :: uint_units d
  | Decimal.D8 d => 56%N :: uint_units d
  | Decimal.D9 d => 57%N :: uint_units d
  end.

(** [n.toString()] for an integer [n] (below [10^21] in absolute value,
    where JavaScript still prints all digits). *)
Definition Number_toString (z : Z) : jsstring :=
  match Z.to_int z with
  | Decimal.Pos d => uint_units d
  | Decimal.Neg d => 45%N :: uint_units d
  end.

(** [s.padStart(targetLength, pad)] for a pad of one code unit. *)
Definition padStart (targetLength : nat) (pad : char) (s : jsstring) : jsstring :=
  repeat pad (targetLength - List.length s) ++ s.

(** [s.replace(/c/g, rep)] for a pattern of one literal code unit. *)
Definition replace_unit (c : char) (rep s : jsstring) : jsstring :=
  flat_map (fun x => if (x =? c)%N then rep else [x]) s.

(** [s.substring(0, n)] *)
Definition substring0 (n : nat) (s : jsstring) : jsstring := firstn n s.

(** A JavaScript string of ASCII code units as a path. *)
Definition path_of (s : jsstring) : string :=
  string_of_list_ascii (map ascii_of_N s).

(** [path.join(dir, name)] for a directory without a trailing separator
    and a plain file name. *)
Definition path_join (dir name : string) : string :=
  (dir ++ "/" ++ name)%string.

End Builtins.

Import Builtins.

(** ** [src/utils/timing.ts]: frame synchronisation and time stamps *)

Module Sync.

Record FrameTiming := {
  frameIndex : nat;
  startTime : Q;
  duration : Q
}.

(** The loop of [synchronizeFrames] from index [i] on, with [currentTime]. *)
Fixpoint synchronize_from (i : nat) (currentTime : Q) (frameDurations : list Q)
    : list FrameTiming :=
  match frameDurations with
  | [] => []
  | d :: rest =>
      {| frameIndex := i; startTime := currentTime; duration := d |}
        :: synchronize_from (S i) (currentTime + d) rest
  end.

Definition synchronizeFrames (frameDurations : list Q) : list FrameTiming :=
  synchronize_from 0 0 frameDurations.

Definition zero : char := 48%N.

(** The four numbers that [formatTimestamp] prints. *)
Definition hours (seconds : Q) : Z := Math_floor (seconds / 3600).
Definition minutes (seconds : Q) : Z :=
  Math_floor (Number_rem seconds 3600 / 60).
Definition secs (seconds : Q) : Z := Math_floor (Number_rem seconds 60).
Definition ms (seconds : Q) : Z := Math_floor (Number_rem seconds 1 * 1000).

Definition formatTimestamp (seconds : Q) : jsstring :=
  padStart 2 zero (Number_toString (hours seconds)) ++ str ":"
  ++ padStart 2 zero (Number_toString (minutes seconds)) ++ str ":"
  ++ padStart 2 zero (Number_toString (secs seconds)) ++ str "."
  ++ padStart 3 zero (Number_toString (ms seconds)).

(** The decimal digit of [z] at the place of [10^k], as a code unit. *)
Definition digit_at (k : nat) (z : Z) : char :=
  Z.to_N (48 + (z / 10 ^ Z.of_nat k) mod 10).

Definition two_digits (z : Z) : jsstring := [digit_at 1 z; digit_at 0 z].
Definition three_digits (z : Z) : jsstring :=
  [digit_at 2 z; digit_at 1 z; digit_at 0 z].


(** Where the last frame of a playback ends (0 without a frame). *)
Definition playback_end (frames : list FrameTiming) : Q :=
  match rev frames with
  | [] => 0
  | f :: _ => startTime f + duration f
  end.

End Sync.

(** ** [src/generators/frames.ts]: names and escaping *)

Module Frames.

Import Video.

(** [escapeHtml]: five replacements in a row, the ampersand first. *)
Definition escapeHtml (text : jsstring) : jsstring :=
  replace_unit 39%N (str "&#039;")
    (replace_unit 34%N (str "&quot;")
       (replace_unit 62%N (str "&gt;")
          (replace_unit 60%N (str "&lt;")
             (replace_unit 38%N (str "&amp;") text)))).

(** What one pass over the text would put for a code unit: its entity
    for the five special characters, the code unit itself otherwise. *)
Definition entity (c : char) : jsstring :=
  if (c =? 38)%N then str "&amp;"
  else if (c =? 60)%N then str "&lt;"
  else if (c =? 62)%N then str "&gt;"
  else if (c =? 34)%N then str "&quot;"
  else if (c =? 39)%N then str "&#039;"
  else [c].

(** The code units [<], [>], double quote and single quote. *)
Definition markup_unit (c : char) : bool :=
  ((c =? 60) || (c =? 62) || (c =? 34) || (c =? 39))%N.

(** The class [[a-zA-Z0-9.-]]. *)
Definition filename_unit (c : char) : bool :=
  ((97 <=? c) && (c <=? 122) || (65 <=? c) && (c <=? 90)
   || (48 <=? c) && (c <=? 57) || (c =? 46) || (c =? 45))%N.

Definition underscore : char := 95%N.

(** [s.replace(/[^a-zA-Z0-9.-]/g, '_')] *)
Definition replace_other_units (s : jsstring) : jsstring :=
  map (fun c => if filename_unit c then c else underscore) s.

(** [s.replace(/_+/g, '_')]: every maximal run of underscores becomes one;
    [in_run] records that the previous code unit was an underscore. *)
Fixpoint collapse_from (in_run : bool) (s : jsstring) : jsstring :=
  match s with
  | [] => []
  | c :: rest =>
      if (c =? underscore)%N then
        if in_run then collapse_from true rest
        else c :: collapse_from true rest
      else c :: collapse_from false rest
  end.

Definition collapse_underscores (s : jsstring) : jsstring :=
  collapse_from false s.

Definition sanitizeFilename (filename : jsstring) : jsstring :=
  substring0 50 (collapse_underscores (replace_other_units filename)).

(** What [generateFrames] reads of a file of the analysis, and what it
    asks of its surroundings: the directory, and for each frame
    ([generateTitleFrame], [generateFileFrame], [generateOutroFrame]) the
    building of the markup and the writing of the file, which [writeFile]
    stands for; the markup itself is left out. *)
Record FileAnalysis := {
  file_path : jsstring
}.

Record World := {
  mkdir : path -> result unit;
  writeFile : path -> result unit
}.

(** [frameIndex.toString().padStart(3, '0')] *)
Definition index3 (frameIndex : nat) : string :=
  path_of (padStart 3 Sync.zero (Number_toString (Z.of_nat frameIndex))).

Definition file_frame_path (outputDir : path) (frameIndex : nat)
    (f : FileAnalysis) : path :=
  path_join outputDir
    ("frame-" ++ index3 frameIndex ++ "-"
       ++ path_of (sanitizeFilename (file_path f)) ++ ".html")%string.

(** The loop of [generateFrames] over [analysis.files] and the outro that
    follows it; [framePaths] holds the paths pushed so far. *)
Fixpoint file_frames (w : World) (outputDir : path) (frameIndex : nat)
    (files : list FileAnalysis) (framePaths : list path) : result (list path) :=
  match files with
  | [] =>
      let outroPath :=
        path_join outputDir ("frame-" ++ index3 frameIndex ++ "-outro.html")%string in
      _ <- writeFile w outroPath ;;
      Ok (framePaths ++ [outroPath])
  | f :: rest =>
      let framePath := file_frame_path outputDir frameIndex f in
      _ <- writeFile w framePath ;;
      file_frames w outputDir (S frameIndex) rest (framePaths ++ [framePath])
  end.

Definition generateFrames (w : World) (files : list FileAnalysis)
    (outputDir : path) : result (list path) :=
  _ <- mkdir w outputDir ;;
  let titlePath := path_join outputDir "frame-000-title.html" in
  _ <- writeFile w titlePath ;;
  file_frames w outputDir 1 files [titlePath].

(** The paths that a run of [generateFrames] returns: for the files, from
    index [frameIndex] on, and for the outro. *)
Definition file_paths (outputDir : path) (frameIndex : nat)
    (files : list FileAnalysis) : list path :=
  map (fun p : nat * FileAnalysis =>
         file_frame_path outputDir (fst p) (snd p))
      (combine (seq frameIndex (List.length files)) files).

Definition outro_path (outputDir : path) (frameIndex : nat) : path :=
  path_join outputDir ("frame-" ++ index3 frameIndex ++ "-outro.html")%string.

End Frames.

(** ** [src/generators/compiler.ts] *)

Module Compiler.

Import Video.

Inductive Quality := low | medium | high.

Record Options := {
  width : Z;
  height : Z;
  fps : Z;
  quality : Quality
}.

(** [new VideoCompiler({ width: 1920, height: 1080, fps: 30, quality: 'high' })] *)
Definition video_options : Options :=
  {| width := 1920; height := 1080; fps := 30; quality := high |}.

(** What the compiler asks of its surroundings: the HTML-to-PNG converter,
    the file system, the shell ([exec] answers with the standard output),
    and two library functions taken as they are, [path.dirname] and the
    printing of a duration inside a template string. *)
Record World := {
  converter_initialize : result unit;
  mkdir : path -> result unit;
  convertFile : path -> path -> result unit;
  writeFile : path -> string -> result unit;
  exec : string -> result string;
  stat : path -> result unit;
  unlink : path -> result unit;
  path_dirname : path -> path;
  show_number : Q -> string
}.

Definition png_path (outputDir : path) (i : nat) : path :=
  path_join outputDir ("frame-" ++ Frames.index3 i ++ ".png")%string.

(** The loop of [convertFramesToPng] from index [i] on; [pngPaths] holds
    the paths pushed so far. *)
Fixpoint convert_from (w : World) (outputDir : path) (i : nat)
    (htmlFrames pngPaths : list path) : result (list path) :=
  match htmlFrames with
  | [] => Ok pngPaths
  | htmlPath :: rest =>
      let pngPath := png_path outputDir i in
      _ <- convertFile w htmlPath pngPath ;;
      convert_from w outputDir (S i) rest (pngPaths ++ [pngPath])
  end.

Definition convertFramesToPng (w : World) (htmlFrames : list path)
    (outputDir : path) : result (list path) :=
  _ <- mkdir w outputDir ;;
  convert_from w outputDir 0 htmlFrames [].

Definition quote : string := String (ascii_of_nat 34) EmptyString.
Definition newline : string := String (ascii_of_nat 10) EmptyString.

(** The lines of the concat file; [compileVideo] calls it with as many
    durations as frames. *)
Definition concat_lines (w : World) (pngFrames : list path)
    (frameDurations : list Q) : list string :=
  flat_map (fun fd : path * Q =>
              [("file '" ++ fst fd ++ "'")%string;
               ("duration " ++ show_number w (snd fd))%string])
           (combine pngFrames frameDurations)
  ++ match rev pngFrames with
     | [] => []
     | lastFrame :: _ => [("file '" ++ lastFrame ++ "'")%string]
     end.

Definition createConcatFile (w : World) (pngFrames : list path)
    (frameDurations : list Q) (outputPath : path) : result unit :=
  writeFile w outputPath
    (String.concat newline (concat_lines w pngFrames frameDurations)).

(** [if (audioPath)]: neither [null] nor the empty string. *)
Definition given (audioPath : option path) : option path :=
  match audioPath with
  | Some EmptyString => None
  | other => other
  end.

Definition crf (q : Quality) : string :=
  match q with high => "18" | medium => "23" | low => "28" end.

Definition preset (q : Quality) : string :=
  match q with high => "slow" | medium => "medium" | low => "fast" end.

Definition ffmpegArgs (o : Options) (concatFilePath : path)
    (audioPath : option path) (outputPath : path) : list string :=
  ["-f concat"; "-safe 0";
   "-i " ++ quote ++ concatFilePath ++ quote]%string
  ++ match given audioPath with
     | Some a => ["-i " ++ quote ++ a ++ quote]%string
     | None => []
     end
  ++ ["-c:v libx264";
      "-crf " ++ crf (quality o);
      "-preset " ++ preset (quality o);
      "-pix_fmt yuv420p";
      "-r " ++ path_of (Number_toString (fps o))]%string
  ++ match given audioPath with
     | Some _ => ["-c:a aac"; "-b:a 192k"; "-shortest"]%string
     | None => []
     end
  ++ ["-y"; quote ++ outputPath ++ quote]%string.

Definition count (n : nat) : string := path_of (Number_toString (Z.of_nat n)).

Definition compileVideo (w : World) (o : Options) (pngFrames : list path)
    (frameDurations : list Q) (audioPath : option path) (outputPath : path)
    : result unit :=
  match pngFrames with
  | [] => Throw "No frames to compile"
  | firstFrame :: _ =>
      if negb (List.length frameDurations =? List.length pngFrames)%nat then
        Throw ("Frame count mismatch: " ++ count (List.length pngFrames)
               ++ " frames, " ++ count (List.length frameDurations)
               ++ " durations")%string
      else
        let concatFilePath := path_join (path_dirname w firstFrame) "concat.txt" in
        _ <- createConcatFile w pngFrames frameDurations concatFilePath ;;
        let command :=
          ("ffmpeg " ++ String.concat " "
             (ffmpegArgs o concatFilePath audioPath outputPath))%string in
        match (_ <- exec w command ;;
               _ <- stat w outputPath ;;
               unlink w concatFilePath) with
        | Ok _ => Ok tt
        | Throw e => Throw ("Failed to compile video: " ++ e)%string
        end
  end.

Definition checkFFmpeg (w : World) : bool :=
  match exec w "ffmpeg -version" with
  | Ok _ => true
  | Throw _ => false
  end.

(** [stdout.split('\n')[0]] *)
Fixpoint first_line (stdout : string) : string :=
  match stdout with
  | EmptyString => EmptyString
  | String c rest =>
      if Ascii.eqb c (ascii_of_nat 10) then EmptyString
      else String c (first_line rest)
  end.

Definition getFFmpegVersion (w : World) : string :=
  match exec w "ffmpeg -version" with
  | Ok stdout => first_line stdout
  | Throw _ => "FFmpeg not found"
  end.

(** The collaborators of [generateVideo] as the source builds them: the
    [FrameGenerator] writing under [frames-html], the [VideoCompiler] with
    the options above writing under [frames-png]; the speech synthesis and
    the size of the audio file stay as given. *)
Definition collaborators (fw : Frames.World) (w : World)
    (files : list Frames.FileAnalysis) (tempDir : path)
    (tts : result unit) (size : option Z) : Collaborators :=
  {| generateFrames :=
       Frames.generateFrames fw files (path_join tempDir "frames-html");
     tts_generateAudio := tts;
     stat_size := size;
     initialize := converter_initialize w;
     Video.convertFramesToPng :=
       fun htmlFrames =>
         convertFramesToPng w htmlFrames (path_join tempDir "frames-png");
     Video.checkFFmpeg := Ok (checkFFmpeg w);
     Video.getFFmpegVersion := Ok (getFFmpegVersion w);
     Video.compileVideo := compileVideo w video_options |}.

End Compiler.

(** ** Surroundings used in the examples *)

Module Worlds.

(** A file system that accepts every frame. *)
Definition frames_ok : Frames.World :=
  {| Frames.mkdir := fun _ => Video.Ok tt;
     Frames.writeFile := fun _ => Video.Ok tt |}.

(** A converter, a file system and an FFmpeg that all succeed. *)
Definition compiler_ok : Compiler.World :=
  {| Compiler.converter_initialize := Video.Ok tt;
     Compiler.mkdir := fun _ => Video.Ok tt;
     Compiler.convertFile := fun _ _ => Video.Ok tt;
     Compiler.writeFile := fun _ _ => Video.Ok tt;
     Compiler.exec := fun _ => Video.Ok "ffmpeg version 6.0"%string;
     Compiler.stat := fun _ => Video.Ok tt;
     Compiler.unlink := fun _ => Video.Ok tt;
     Compiler.path_dirname := fun p => p;
     Compiler.show_number := fun _ => "3"%string |}.

Definition two_files : list Frames.FileAnalysis :=
  [{| Frames.file_path := str "src/utils/timing.ts" |};
   {| Frames.file_path := str "README.md" |}].

Definition script : Video.VideoScript :=
  {| Video.fullNarrative := Examples.scenarioA |}.


(** A run with two files whose speech synthesis leaves an audio file of
    1024 bytes. *)
Definition audible_run : Video.Collaborators :=
  Compiler.collaborators frames_ok compiler_ok two_files
    ".temp-video-0"%string (Video.Ok tt) (Some 1024%Z).

End Worlds.

(** ** What a scanned narrative adds up to *)

Module Parts.

(** The pauses of the matches, in seconds. *)
Fixpoint pause_total (parts : list Marker.part) : Q :=
  match parts with
  | [] => 0
  | Marker.Text _ :: rest => pause_total rest
  | Marker.Match d :: rest => parseInt d / 1000 + pause_total rest
  end.

(** The estimates of the stretches of text that are not blank, each taken
    on its own. *)
Fixpoint speech_total (style : PresentationStyle) (parts : list Marker.part)
    : Q :=
  match parts with
  | [] => 0
  | Marker.Text t :: rest =>
      if truthy (trim t)
      then calculateSpeakingDuration t style + speech_total style rest
      else speech_total style rest
  | Marker.Match _ :: rest => speech_total style rest
  end.


(** A stretch of text in which no match starts; a match whose capture is
    one or more digits. *)
Definition clean (p : Marker.part) : Prop :=
  match p with
  | Marker.Text t => forall u v, t = u ++ v -> Marker.match_at v = None
  | Marker.Match d => truthy d = true /\ forallb is_digit d = true
  end.

(** The piece that [split] returns for a part. *)
Definition part_string (p : Marker.part) : jsstring :=
  match p with
  | Marker.Text t => t
  | Marker.Match d => Marker.marker_text d
  end.

End Parts.

(** ** Sums of durations *)

Section Sums.

Lemma sum_durations_from (segs : list NarrationTiming) (a : Q) :
  fold_left (fun sum seg => sum + Timing.duration seg) segs a
  == a + sum_durations segs.
Proof.
  unfold sum_durations. revert a.
  induction segs as [|s segs IH]; intros a; simpl.
  - lra.
  - rewrite (IH (a + Timing.duration s)), (IH (0 + Timing.duration s)). lra.
Qed.

Lemma sum_durations_cons (s : NarrationTiming) (segs : list NarrationTiming) :
  sum_durations (s :: segs) == Timing.duration s + sum_durations segs.
Proof.
  unfold sum_durations at 1. simpl. rewrite sum_durations_from. lra.
Qed.

Lemma sum_durations_app (l1 l2 : list NarrationTiming) :
  sum_durations (l1 ++ l2) == sum_durations l1 + sum_durations l2.
Proof.
  induction l1 as [|s l1 IH]; simpl.
  - unfold sum_durations at 2. simpl. lra.
  - rewrite !sum_durations_cons, IH. lra.
Qed.

Lemma sum_numbers_snoc (l : list Q) (x : Q) :
  Video.sum_numbers (l ++ [x]) = Video.sum_numbers l + x.
Proof. unfold Video.sum_numbers. rewrite fold_left_app. reflexivity. Qed.

Lemma sum_numbers_constant (x : Q) (n : nat) :
  Video.sum_numbers (map (fun _ => x) (seq 0 n)) == num n * x.
Proof.
  induction n as [|n IH].
  - unfold num. simpl. reflexivity.
  - rewrite seq_S, map_app. simpl map. rewrite sum_numbers_snoc, IH.
    unfold num. rewrite Nat2Z.inj_succ. unfold Z.succ.
    rewrite inject_Z_plus. ring.
Qed.

Lemma sum_durations_pos (segs : list NarrationTiming) :
  Forall (fun s => 0 < Timing.duration s) segs -> segs <> [] ->
  0 < sum_durations segs.
Proof.
  intros Hall Hne. destruct segs as [|s segs]; [congruence|].
  clear Hne. revert s Hall.
  induction segs as [|t segs IH]; intros s Hall; rewrite sum_durations_cons.
  - inversion Hall; subst. unfold sum_durations. simpl. lra.
  - inversion Hall; subst. specialize (IH t H2). lra.
Qed.

End Sums.

(** ** Lists cut into consecutive groups *)

Section Groups.

Context {A : Type}.

Lemma firstn_add (a m : nat) (l : list A) :
  firstn (a + m) l = firstn a l ++ firstn m (skipn a l).
Proof.
  revert l. induction a as [|a IH]; intros l; simpl.
  - reflexivity.
  - destruct l as [|x l]; simpl.
    + now rewrite firstn_nil.
    + now rewrite IH.
Qed.

Lemma firstn_min_length (m : nat) (l : list A) :
  firstn (Nat.min m (List.length l)) l = firstn m l.
Proof.
  destruct (Nat.le_ge_cases m (List.length l)) as [H|H].
  - now rewrite Nat.min_l.
  - rewrite Nat.min_r by assumption. now rewrite !firstn_all2 by lia.
Qed.

(** The group that the loop of [calculateFrameDurations] gives to frame
    [i] continues the groups of the frames before it. *)
Lemma slice_group (i spf : nat) (l : list A) :
  firstn ((i + 1) * spf) l
  = firstn (i * spf) l
      ++ slice (i * spf) (Math_min ((i + 1) * spf) (List.length l)) l.
Proof.
  unfold slice, Math_min.
  replace ((i + 1) * spf)%nat with (i * spf + spf)%nat by lia.
  rewrite firstn_add. f_equal.
  rewrite <- (firstn_min_length spf (skipn (i * spf) l)).
  f_equal. rewrite length_skipn. lia.
Qed.

End Groups.

Section Ceiling.

Lemma num_pos (n : nat) : (1 <= n)%nat -> 0 < num n.
Proof.
  intros H. unfold num. change 0 with (inject_Z 0).
  rewrite <- Zlt_Qlt. lia.
Qed.

(** [frameCount] groups of [Math.ceil(length / frameCount)] segments reach
    the end of the array. *)
Lemma ceil_groups_cover (n f : nat) :
  (1 <= f)%nat -> (n <= f * Math_ceil (num n / num f))%nat.
Proof.
  intros Hf. unfold Math_ceil.
  pose proof (num_pos f Hf) as Hfpos.
  pose proof (Qle_ceiling (num n / num f)) as Hc.
  set (c := Qceiling (num n / num f)) in *.
  assert (Hn : num n <= num f * inject_Z c).
  { assert (Hq : num n == (num n / num f) * num f) by (field; lra).
    rewrite Hq at 1. rewrite (Qmult_comm (num f)).
    apply Qmult_le_compat_r; [exact Hc | lra]. }
  unfold num in Hn. rewrite <- inject_Z_mult, <- Zle_Qle in Hn.
  nia.
Qed.

End Ceiling.

(** ** [calculateFrameDurations] *)

Section FrameDurations.

Variable frameCount : nat.
Variable audioSegments : list NarrationTiming.

(** Claim C1: for every frame count and every segment list, the list that
    [calculateFrameDurations] returns has exactly [frameCount] entries. *)
Theorem calculateFrameDurations_length :
  List.length (calculateFrameDurations frameCount audioSegments) = frameCount.
Proof.
  unfold calculateFrameDurations.
  destruct (frameCount =? 0)%nat eqn:Hzero.
  - apply Nat.eqb_eq in Hzero. now subst.
  - destruct (List.length audioSegments =? 0)%nat.
    + apply repeat_length.
    + destruct (List.length audioSegments <? frameCount)%nat;
        now rewrite length_map, length_seq.
Qed.

(** The frames [0 .. k-1] of the grouped branch together last as long as
    the first [k * segmentsPerFrame] segments. *)
Lemma grouped_prefix_sum (spf k : nat) :
  Video.sum_numbers
    (map (fun i =>
            sum_durations
              (slice (i * spf)
                     (Math_min ((i + 1) * spf) (List.length audioSegments))
                     audioSegments))
         (seq 0 k))
  == sum_durations (firstn (k * spf) audioSegments).
Proof.
  induction k as [|k IH].
  - simpl. reflexivity.
  - rewrite seq_S, map_app. simpl map.
    rewrite sum_numbers_snoc, IH. change (0 + k)%nat with k.
    replace (S k * spf)%nat with ((k + 1) * spf)%nat by lia.
    rewrite (slice_group k spf audioSegments), sum_durations_app.
    reflexivity.
Qed.

(** Claim C3: for at least one frame and a non-empty segment list, the
    frame durations add up to the sum of the segment durations, both when
    there are more frames than segments and when there are not (the
    arithmetic is exact here, so the sums are equal as rationals). *)
Theorem calculateFrameDurations_conserves_duration :
  (1 <= frameCount)%nat -> audioSegments <> [] ->
  Video.sum_numbers (calculateFrameDurations frameCount audioSegments)
  == sum_durations audioSegments.
Proof.
  intros Hf Hne. unfold calculateFrameDurations.
  destruct (Nat.eqb_spec frameCount 0) as [->|_]; [lia|].
  destruct (Nat.eqb_spec (List.length audioSegments) 0) as [Hlen|_].
  { destruct audioSegments; [congruence | discriminate]. }
  destruct (List.length audioSegments <? frameCount)%nat.
  - rewrite sum_numbers_constant.
    pose proof (num_pos frameCount Hf). field. lra.
  - rewrite grouped_prefix_sum.
    rewrite firstn_all2; [reflexivity|].
    pose proof (ceil_groups_cover (List.length audioSegments) frameCount Hf).
    lia.
Qed.

(** With more frames than segments (or no segment at all) every frame
    gets a positive duration when the segments have one. *)
Lemma calculateFrameDurations_positive_spread :
  (1 <= frameCount)%nat ->
  (List.length audioSegments < frameCount)%nat ->
  Forall (fun s => 0 < Timing.duration s) audioSegments ->
  Forall (fun d => 0 < d) (calculateFrameDurations frameCount audioSegments).
Proof.
  intros Hf Hmore Hpos. unfold calculateFrameDurations.
  destruct (Nat.eqb_spec frameCount 0) as [->|_]; [lia|].
  destruct (Nat.eqb_spec (List.length audioSegments) 0) as [Hlen|Hlen].
  - apply Forall_forall. intros d Hd. apply repeat_spec in Hd. subst d. lra.
  - apply Nat.ltb_lt in Hmore. rewrite Hmore.
    apply Forall_forall. intros d Hd. apply in_map_iff in Hd as (i & <- & _).
    assert (Hne : audioSegments <> []) by (intros E; now rewrite E in Hlen).
    pose proof (sum_durations_pos audioSegments Hpos Hne).
    pose proof (num_pos frameCount Hf).
    apply Qlt_shift_div_l; lra.
Qed.

End FrameDurations.

(** Witness of C3: three frames for the four segments of a narration. *)
Lemma calculateFrameDurations_conserves_duration_witness :
  Video.sum_numbers
    (calculateFrameDurations 3
       (createTimingSegments Examples.two_parts_two_pauses technical))
  == sum_durations
       (createTimingSegments Examples.two_parts_two_pauses technical).
Proof.
  apply calculateFrameDurations_conserves_duration.
  - lia.
  - vm_compute. discriminate.
Defined.

(** Claim C2 fails on the code: with three frames and four segments, all
    of positive duration, the groups hold two segments each, nothing is
    left for the third frame, and its duration is 0. *)
Theorem calculateFrameDurations_zero_duration :
  let segs := createTimingSegments Examples.two_parts_two_pauses technical in
  map Timing.duration segs = [2; 1000 # 1000; 2; 1000 # 1000]
  /\ Forall (fun s => 0 < Timing.duration s) segs
  /\ nth_error (calculateFrameDurations 3 segs) 2 = Some 0
  /\ ~ Forall (fun d => 0 < d) (calculateFrameDurations 3 segs).
Proof.
  vm_compute. repeat split.
  - repeat constructor.
  - intros Hall. inversion Hall as [|? ? _ Hall1].
    inversion Hall1 as [|? ? _ Hall2].
    inversion Hall2 as [|? ? Hthird _]. vm_compute in Hthird. discriminate.
Qed.

(** ** Counting words *)

Section Words.

Lemma count_tokens_trimStart (s : jsstring) :
  Spec.count_tokens false (trimStart s) = Spec.count_tokens false s.
Proof.
  induction s as [|c rest IH]; simpl; [reflexivity|].
  destruct (is_space c) eqn:Hc; [exact IH|].
  simpl. now rewrite Hc.
Qed.

Lemma count_tokens_cons (b : bool) (c : char) (s : jsstring) :
  Spec.count_tokens b (c :: s)
  = if is_space c then Spec.count_tokens false s
    else ((if b then 0 else 1) + Spec.count_tokens true s)%nat.
Proof. reflexivity. Qed.

Lemma count_tokens_trimEnd (s : jsstring) (b : bool) :
  Spec.count_tokens b (trimEnd s) = Spec.count_tokens b s.
Proof.
  revert b. induction s as [|c rest IH]; intros b; [reflexivity|].
  rewrite (count_tokens_cons b c rest). cbn [trimEnd].
  destruct (trimEnd rest) as [|k kept] eqn:Hkept.
  - rewrite <- !IH. destruct (is_space c) eqn:Hc; simpl.
    + reflexivity.
    + now rewrite Hc.
  - rewrite (count_tokens_cons b c (k :: kept)). now rewrite !IH.
Qed.

Lemma trimEnd_cons_fixed (c : char) (rest : jsstring) :
  trimEnd (c :: rest) = c :: rest ->
  trimEnd rest = rest /\ (rest = [] -> is_space c = false).
Proof.
  simpl. destruct (trimEnd rest) as [|k kept] eqn:Hkept.
  - destruct (is_space c) eqn:Hc; [discriminate|].
    intros H. injection H as <-. split; [reflexivity | trivial].
  - intros H. injection H as <-. split; [reflexivity | discriminate].
Qed.

Lemma trimEnd_idempotent (s : jsstring) : trimEnd (trimEnd s) = trimEnd s.
Proof.
  induction s as [|c rest IH]; simpl; [reflexivity|].
  destruct (trimEnd rest) as [|k kept] eqn:Hkept.
  - destruct (is_space c) eqn:Hc; simpl; [reflexivity | now rewrite Hc].
  - change (trimEnd (c :: k :: kept)) with
      (match trimEnd (k :: kept) with
       | [] => if is_space c then [] else [c]
       | kept' => c :: kept'
       end).
    now rewrite IH.
Qed.

Lemma trimEnd_head (c : char) (rest : jsstring) :
  is_space c = false -> exists kept, trimEnd (c :: rest) = c :: kept.
Proof.
  intros Hc. simpl. destruct (trimEnd rest) as [|k kept].
  - rewrite Hc. now exists [].
  - now exists (k :: kept).
Qed.

(** The number of pieces of [split(/\s+/)] on a string without trailing
    white space, in the middle of a piece and just after a separator. *)
Lemma split_ws_from_length (s : jsstring) :
  trimEnd s = s ->
  (forall acc,
      List.length (split_ws_from false acc s)
      = S (Spec.count_tokens true s))
  /\ (s <> [] ->
      forall acc,
        List.length (split_ws_from true acc s)
        = Spec.count_tokens false s).
Proof.
  induction s as [|c rest IH]; intros Hfix.
  - split; [reflexivity | congruence].
  - apply trimEnd_cons_fixed in Hfix as [Hrest Hlast].
    destruct (IH Hrest) as [IHmid IHsep].
    destruct (is_space c) eqn:Hc.
    + assert (Hne : rest <> []).
      { intros ->. specialize (Hlast eq_refl). congruence. }
      split; [|intros _]; intros acc; simpl; rewrite Hc; simpl;
        now rewrite IHsep.
    + split; [|intros _]; intros acc; simpl; rewrite Hc; simpl;
        now rewrite IHmid.
Qed.

Lemma trim_head (text : jsstring) :
  trim text = []
  \/ exists c kept, is_space c = false /\ trim text = c :: kept.
Proof.
  unfold trim. induction text as [|c rest IH]; simpl; [now left|].
  destruct (is_space c) eqn:Hc; [exact IH|].
  right. destruct (trimEnd_head c rest Hc) as [kept Hk].
  exists c, kept. split; [assumption|]. exact Hk.
Qed.

(** The count of the source and the word count of the specification: they
    agree, except that the source counts one word in a blank text. *)
Lemma words_wordCount (text : jsstring) :
  words text = Nat.max 1 (Spec.wordCount text).
Proof.
  unfold words, split_ws, Spec.wordCount.
  rewrite <- (count_tokens_trimStart text).
  rewrite <- (count_tokens_trimEnd (trimStart text) false).
  fold (trim text).
  destruct (split_ws_from_length (trim text)) as [Hmid _].
  { apply trimEnd_idempotent. }
  rewrite Hmid.
  destruct (trim_head text) as [-> | (c & kept & Hc & ->)].
  - reflexivity.
  - simpl. rewrite Hc. simpl. lia.
Qed.

Lemma words_positive (text : jsstring) : (1 <= words text)%nat.
Proof. rewrite words_wordCount. lia. Qed.

End Words.

(** ** [calculateSpeakingDuration] *)

Section SpeakingDuration.

Lemma Math_max_r (a b : Q) : a < b -> Math_max a b = b.
Proof.
  intros H. unfold Math_max. destruct (a ?= b) eqn:Hcmp.
  - apply Qeq_alt in Hcmp. lra.
  - reflexivity.
  - apply Qgt_alt in Hcmp. lra.
Qed.

Lemma Math_max_l (a b : Q) : b <= a -> Math_max a b = a.
Proof.
  intros H. unfold Math_max. destruct (a ?= b) eqn:Hcmp; try reflexivity.
  apply Qlt_alt in Hcmp. lra.
Qed.

Lemma Math_max_lower (a b : Q) : a <= Math_max a b.
Proof.
  unfold Math_max. destruct (a ?= b) eqn:Hcmp; try lra.
  apply Qlt_alt in Hcmp. lra.
Qed.

Lemma calculateSpeakingDuration_floor (text : jsstring) (style : PresentationStyle) :
  2 <= calculateSpeakingDuration text style.
Proof. apply Math_max_lower. Qed.

(** [(words / wpm) * 60] as seconds per word. *)
Lemma raw_duration (q : Q) (style : PresentationStyle) :
  q / wpm style * 60
  == q * match style with
         | beginner => 6 # 13
         | technical => 2 # 5
         | overview => 6 # 17
         end.
Proof. destruct style; unfold wpm; field. Qed.

(** Above five words the floor of two seconds is passed for every style. *)
Lemma duration_above_floor (w : nat) (style : PresentationStyle) :
  (5 < w)%nat -> 2 < num w / wpm style * 60.
Proof.
  intros Hw.
  assert (Hq : 6 <= num w).
  { unfold num. change 6 with (inject_Z 6). rewrite <- Zle_Qle. lia. }
  rewrite raw_duration. destruct style; lra.
Qed.

(** Up to four words the floor applies for every style; at five words it
    still applies for [technical] and [overview]. *)
Lemma duration_under_floor (w : nat) (style : PresentationStyle) :
  (w <= 4)%nat -> num w / wpm style * 60 < 2.
Proof.
  intros Hw.
  assert (Hq : num w <= 4).
  { unfold num. change 4 with (inject_Z 4). rewrite <- Zle_Qle. lia. }
  rewrite raw_duration. destruct style; lra.
Qed.

(** Claim C9: for every style and every text of at most three words,
    [calculateSpeakingDuration] returns exactly 2. *)
Theorem calculateSpeakingDuration_short_text
    (text : jsstring) (style : PresentationStyle) :
  (Spec.wordCount text <= 3)%nat ->
  calculateSpeakingDuration text style = 2.
Proof.
  intros Hwc. unfold calculateSpeakingDuration.
  apply Math_max_l. apply Qlt_le_weak, duration_under_floor.
  rewrite words_wordCount. lia.
Qed.

(** Claim C8: for every text of more than five words (the largest count at
    which the floor of two seconds still applies for some style), the
    estimate for [beginner] is strictly above the one for [technical],
    which is strictly above the one for [overview]. *)
Theorem calculateSpeakingDuration_rate_order (text : jsstring) :
  (5 < Spec.wordCount text)%nat ->
  calculateSpeakingDuration text technical
    < calculateSpeakingDuration text beginner
  /\ calculateSpeakingDuration text overview
    < calculateSpeakingDuration text technical.
Proof.
  intros Hwc.
  assert (Hw : (5 < words text)%nat) by (rewrite words_wordCount; lia).
  unfold calculateSpeakingDuration.
  rewrite !Math_max_r by (apply duration_above_floor; exact Hw).
  assert (Hq : 6 <= num (words text)).
  { unfold num. change 6 with (inject_Z 6). rewrite <- Zle_Qle. lia. }
  rewrite !raw_duration. split; lra.
Qed.

End SpeakingDuration.

Lemma calculateSpeakingDuration_short_text_witness :
  calculateSpeakingDuration Examples.three_words beginner = 2.
Proof.
  apply calculateSpeakingDuration_short_text. vm_compute. lia.
Defined.

Lemma calculateSpeakingDuration_rate_order_witness :
  calculateSpeakingDuration Examples.six_words technical
    < calculateSpeakingDuration Examples.six_words beginner
  /\ calculateSpeakingDuration Examples.six_words overview
    < calculateSpeakingDuration Examples.six_words technical.
Proof.
  apply calculateSpeakingDuration_rate_order. vm_compute. lia.
Defined.

(** The threshold of C8 is sharp: at five words [technical] and [overview]
    both give the floor, and at four words all three styles do. *)
Lemma calculateSpeakingDuration_five_words :
  calculateSpeakingDuration (str "one two three four five") technical = 2
  /\ calculateSpeakingDuration (str "one two three four five") overview = 2.
Proof. split; reflexivity. Qed.

Lemma calculateSpeakingDuration_four_words (style : PresentationStyle) :
  calculateSpeakingDuration (str "one two three four") style = 2.
Proof. destruct style; reflexivity. Qed.

(** ** Timelines *)

Section Timelines.

Lemma end_time_snoc (t : Q) (segs : list NarrationTiming) (x : NarrationTiming) :
  Spec.end_time t (segs ++ [x]) = Spec.end_time t segs + Timing.duration x.
Proof. unfold Spec.end_time. now rewrite fold_left_app. Qed.

Lemma timeline_snoc (t : Q) (segs : list NarrationTiming) (x : NarrationTiming) :
  Spec.timeline t segs -> startTime x = Spec.end_time t segs ->
  Spec.timeline t (segs ++ [x]).
Proof.
  revert t. induction segs as [|s segs IH]; intros t Hline Hx; simpl.
  - split; [exact Hx | exact I].
  - destruct Hline as [Hs Hrest]. split; [exact Hs|].
    apply IH; assumption.
Qed.

Lemma timeline_last (t : Q) (segs : list NarrationTiming) (x : NarrationTiming) :
  Spec.timeline t (segs ++ [x]) -> startTime x = Spec.end_time t segs.
Proof.
  revert t. induction segs as [|s segs IH]; intros t Hline; simpl in Hline.
  - apply Hline.
  - destruct Hline as [_ Hrest]. apply (IH _ Hrest).
Qed.

Lemma timeline_adjacent (t : Q) (segs : list NarrationTiming) (i : nat)
    (a b : NarrationTiming) :
  Spec.timeline t segs ->
  nth_error segs i = Some a -> nth_error segs (S i) = Some b ->
  startTime b = startTime a + Timing.duration a.
Proof.
  revert t i. induction segs as [|s segs IH]; intros t i Hline Ha Hb.
  - destruct i; discriminate.
  - destruct Hline as [Hs Hrest]. destruct i as [|i].
    + injection Ha as <-. destruct segs as [|s' segs]; [discriminate|].
      injection Hb as <-. destruct Hrest as [Hs' _]. now rewrite Hs', Hs.
    + apply (IH _ i Hrest); assumption.
Qed.

Lemma timeline_end_sum (segs : list NarrationTiming) :
  Spec.timeline 0 segs -> segs <> [] ->
  Spec.timeline_end segs = Some (sum_durations segs).
Proof.
  intros Hline Hne. destruct (exists_last Hne) as (l & x & ->).
  unfold Spec.timeline_end. rewrite rev_unit.
  rewrite (timeline_last _ _ _ Hline).
  unfold sum_durations. fold (Spec.end_time 0 (l ++ [x])).
  now rewrite end_time_snoc.
Qed.

Lemma segment_step_invariant (style : PresentationStyle)
    (st : list NarrationTiming * Q) (part : jsstring) :
  Spec.loop_invariant st -> Spec.loop_invariant (segment_step style st part).
Proof.
  destruct st as [segments currentTime]. intros [Hline Hend].
  simpl in Hline, Hend. unfold segment_step.
  destruct (Marker.String_match part) as [digits|];
    [|destruct (truthy (trim part))];
    try (split; assumption);
    (split; cbn [fst snd];
     [apply timeline_snoc; [assumption | exact Hend]
     | rewrite end_time_snoc; cbn [Timing.duration]; now rewrite Hend]).
Qed.

Lemma loop_invariant_fold (style : PresentationStyle) (parts : list jsstring)
    (st : list NarrationTiming * Q) :
  Spec.loop_invariant st ->
  Spec.loop_invariant (fold_left (segment_step style) parts st).
Proof.
  revert st. induction parts as [|part parts IH]; intros st Hinv; simpl.
  - exact Hinv.
  - apply IH, segment_step_invariant, Hinv.
Qed.

Lemma createTimingSegments_timeline (narration : jsstring)
    (style : PresentationStyle) :
  Spec.timeline 0 (createTimingSegments narration style).
Proof.
  unfold createTimingSegments.
  apply (loop_invariant_fold style (Marker.split narration) ([], 0)).
  split; [exact I | reflexivity].
Qed.

End Timelines.

(** ** Scanning for markers *)

Section Scanning.

Lemma strip_prefix_app (p s : jsstring) :
  Marker.strip_prefix p (p ++ s) = Some s.
Proof.
  induction p as [|a p IH]; simpl; [reflexivity|].
  now rewrite N.eqb_refl.
Qed.

Lemma span_digits_app (d s : jsstring) :
  forallb is_digit d = true ->
  match s with [] => True | c :: _ => is_digit c = false end ->
  Marker.span_digits (d ++ s) = (d, s).
Proof.
  intros Hd Hs. induction d as [|c d IH]; cbn [app Marker.span_digits].
  - destruct s as [|c s]; [reflexivity|].
    cbn [Marker.span_digits]. now rewrite Hs.
  - cbn [forallb] in Hd. apply andb_prop in Hd as [Hc Hd].
    now rewrite Hc, (IH Hd).
Qed.

(** A well-formed marker is matched where it starts. *)
Lemma match_at_marker (d s : jsstring) :
  truthy d = true -> forallb is_digit d = true ->
  Marker.match_at (Marker.marker_text d ++ s) = Some d.
Proof.
  intros Hne Hd. unfold Marker.match_at, Marker.marker_text.
  rewrite <- !app_assoc, strip_prefix_app.
  rewrite span_digits_app; [|assumption|reflexivity].
  destruct d as [|c d]; [discriminate|].
  now rewrite strip_prefix_app.
Qed.

(** No match starts on a code unit other than the opening bracket. *)
Lemma match_at_no_bracket (c : char) (s : jsstring) :
  (c =? Spec.bracket)%N = false -> Marker.match_at (c :: s) = None.
Proof.
  intros Hc. unfold Marker.match_at.
  change Marker.opening with (Spec.bracket :: tl Marker.opening).
  cbn [Marker.strip_prefix]. now rewrite N.eqb_sym, Hc.
Qed.

(** The scan passes over the rest of a match without looking at it. *)
Lemma scan_from_skip (pre s acc : jsstring) :
  Marker.scan_from (List.length pre) acc (pre ++ s) = Marker.scan_from 0 acc s.
Proof.
  induction pre as [|c pre IH]; simpl; [reflexivity | exact IH].
Qed.

(** Text without a bracket is passed over into the current stretch. *)
Lemma scan_from_text (t s acc : jsstring) :
  forallb (fun c => negb (c =? Spec.bracket)%N) t = true ->
  Marker.scan_from 0 acc (t ++ s) = Marker.scan_from 0 (rev t ++ acc) s.
Proof.
  revert acc. induction t as [|c t IH]; intros acc Ht.
  - reflexivity.
  - simpl in Ht. apply andb_prop in Ht as [Hc Ht].
    apply negb_true_iff in Hc.
    change ((c :: t) ++ s) with (c :: (t ++ s)).
    cbn [Marker.scan_from]. rewrite (match_at_no_bracket c _ Hc).
    rewrite (IH (c :: acc) Ht). simpl rev. rewrite <- !app_assoc.
    reflexivity.
Qed.

Lemma scan_no_bracket (t : jsstring) :
  forallb (fun c => negb (c =? Spec.bracket)%N) t = true ->
  Marker.scan t = [Marker.Text t].
Proof.
  intros Ht. unfold Marker.scan.
  rewrite <- (app_nil_r t) at 1. rewrite (scan_from_text t [] [] Ht).
  simpl. now rewrite app_nil_r, rev_involutive.
Qed.

(** A scan that meets no match returns the string as one stretch. *)
Lemma scan_from_no_match (s acc : jsstring) :
  flat_map (fun p => match p with
                     | Marker.Text _ => []
                     | Marker.Match d => [d]
                     end) (Marker.scan_from 0 acc s) = [] ->
  Marker.scan_from 0 acc s = [Marker.Text (rev acc ++ s)].
Proof.
  revert acc. induction s as [|c s IH]; intros acc; simpl.
  - now rewrite app_nil_r.
  - destruct (Marker.match_at (c :: s)) as [d|]; simpl; [discriminate|].
    intros H. rewrite (IH _ H). simpl. now rewrite <- app_assoc.
Qed.

Lemma scan_no_match (s : jsstring) :
  Marker.exec_all s = [] -> Marker.scan s = [Marker.Text s].
Proof. intros H. apply (scan_from_no_match s [] H). Qed.

Lemma space_not_bracket (s : jsstring) :
  forallb is_space s = true ->
  forallb (fun c => negb (c =? Spec.bracket)%N) s = true.
Proof.
  induction s as [|c s IH]; simpl; [reflexivity|].
  intros H. apply andb_prop in H as [Hc Hs]. rewrite (IH Hs), andb_true_r.
  destruct (N.eqb_spec c Spec.bracket) as [->|_]; [discriminate | reflexivity].
Qed.

Lemma trim_blank (s : jsstring) : forallb is_space s = true -> trim s = [].
Proof.
  unfold trim. induction s as [|c s IH]; simpl; [reflexivity|].
  intros H. apply andb_prop in H as [Hc Hs]. rewrite Hc. exact (IH Hs).
Qed.

End Scanning.

(** ** Narrations made of text and markers *)

Section Rendered.

Lemma scan_from_marker (d s acc : jsstring) :
  truthy d = true -> forallb is_digit d = true ->
  Marker.scan_from 0 acc (Marker.marker_text d ++ s)
  = Marker.Text (rev acc) :: Marker.Match d :: Marker.scan_from 0 [] s.
Proof.
  intros Hne Hd. pose proof (match_at_marker d s Hne Hd) as Hm.
  assert (Hcons : Marker.marker_text d
                  = Spec.bracket :: tl (Marker.marker_text d))
    by reflexivity.
  destruct (Marker.marker_text d) as [|c m] eqn:Htext; [discriminate|].
  change ((c :: m) ++ s) with (c :: (m ++ s)) in *.
  cbn [Marker.scan_from]. rewrite Hm, Htext.
  cbn [List.length Nat.pred]. now rewrite scan_from_skip.
Qed.

(** The scan of a rendered narration finds the text between the markers. *)
Lemma scan_render_texts (ps : list Spec.piece) :
  Spec.all_well_formed ps ->
  forall acc,
    flat_map (fun p => match p with
                       | Marker.Text t => t
                       | Marker.Match _ => []
                       end)
             (Marker.scan_from 0 acc (Spec.render ps))
    = rev acc ++ Spec.plain_text ps.
Proof.
  induction 1 as [|p ps' Hp _ IH]; intros acc.
  - simpl. reflexivity.
  - destruct p as [t|d]; simpl in Hp.
    + change (Spec.render (Spec.Plain t :: ps'))
        with (t ++ Spec.render ps').
      change (Spec.plain_text (Spec.Plain t :: ps'))
        with (t ++ Spec.plain_text ps').
      rewrite (scan_from_text t _ acc Hp), IH.
      now rewrite rev_app_distr, rev_involutive, <- app_assoc.
    + apply andb_prop in Hp as [Hne Hd].
      change (Spec.render (Spec.Pause d :: ps'))
        with (Marker.marker_text d ++ Spec.render ps').
      rewrite (scan_from_marker d _ acc Hne Hd).
      cbn [flat_map]. rewrite IH. reflexivity.
Qed.

Lemma plain_text_no_bracket (ps : list Spec.piece) :
  Spec.all_well_formed ps ->
  forallb (fun c => negb (c =? Spec.bracket)%N) (Spec.plain_text ps) = true.
Proof.
  induction 1 as [|p ps' Hp _ IH]; [reflexivity|].
  destruct p as [t|d].
  - change (Spec.plain_text (Spec.Plain t :: ps'))
      with (t ++ Spec.plain_text ps').
    rewrite forallb_app. cbn [Spec.well_formed] in Hp.
    apply andb_true_intro. split; [exact Hp | exact IH].
  - exact IH.
Qed.

Lemma cleanText_render (ps : list Spec.piece) :
  Spec.all_well_formed ps ->
  cleanText (parseSilenceMarkers (Spec.render ps)) = Spec.plain_text ps.
Proof.
  intros Hwf. unfold parseSilenceMarkers, Marker.replace_all, Marker.scan.
  cbn [cleanText]. now rewrite scan_render_texts.
Qed.

End Rendered.

(** ** [parseSilenceMarkers] *)

Section ParseSilenceMarkers.

(** Claim C5 as amended: for every narration made of well-formed markers
    and of text without an opening bracket, [cleanText] is that text, and
    parsing it again finds no marker: [totalSilence] is 0. *)
Theorem parseSilenceMarkers_clean_again (ps : list Spec.piece) :
  Spec.all_well_formed ps ->
  let parsed := parseSilenceMarkers (Spec.render ps) in
  cleanText parsed = Spec.plain_text ps
  /\ totalSilence (parseSilenceMarkers (cleanText parsed)) = 0
  /\ cleanText (parseSilenceMarkers (cleanText parsed)) = cleanText parsed.
Proof.
  intros Hwf parsed. subst parsed. rewrite (cleanText_render ps Hwf).
  pose proof (scan_no_bracket _ (plain_text_no_bracket ps Hwf)) as Hscan.
  unfold parseSilenceMarkers, Marker.exec_all, Marker.replace_all.
  rewrite Hscan. cbn. rewrite app_nil_r. repeat split.
Qed.

End ParseSilenceMarkers.

(** Witness of the amended C5 on scenario A, written as pieces. *)
Lemma parseSilenceMarkers_clean_again_witness :
  let parsed :=
    parseSilenceMarkers
      (Spec.render [Spec.Plain (str "Hello world. ");
                    Spec.Pause (str "500");
                    Spec.Plain (str " Next part here.")]) in
  cleanText parsed
  = Spec.plain_text [Spec.Plain (str "Hello world. ");
                     Spec.Pause (str "500");
                     Spec.Plain (str " Next part here.")]
  /\ totalSilence (parseSilenceMarkers (cleanText parsed)) = 0
  /\ cleanText (parseSilenceMarkers (cleanText parsed)) = cleanText parsed.
Proof.
  apply parseSilenceMarkers_clean_again.
  repeat constructor.
Defined.

(** Claim C5 fails as stated: removing the inner marker of
    ["[[slnc [[slnc 1]]5]]"] leaves ["[[slnc 5]]"], which parses to a
    pause of 5 ms. *)
Lemma parseSilenceMarkers_marker_remains :
  cleanText (parseSilenceMarkers Examples.nested_marker) = str "[[slnc 5]]"
  /\ ~ totalSilence
         (parseSilenceMarkers
            (cleanText (parseSilenceMarkers Examples.nested_marker))) == 0.
Proof.
  split; [reflexivity|].
  intros H. vm_compute in H. discriminate.
Qed.

(** ** [createTimingSegments] *)

Section CreateTimingSegments.

Variable narrative : jsstring.
Variable style : PresentationStyle.

(** Claim C6: in the list that [createTimingSegments] returns, every
    segment starts where the one before it ends, and the first segment, if
    there is one, starts at 0. *)
Theorem createTimingSegments_continuity :
  let segments := createTimingSegments narrative style in
  (forall i a b,
      nth_error segments i = Some a -> nth_error segments (S i) = Some b ->
      startTime b = startTime a + Timing.duration a)
  /\ (forall a, nth_error segments 0 = Some a -> startTime a = 0).
Proof.
  intros segments.
  pose proof (createTimingSegments_timeline narrative style) as Hline.
  fold segments in Hline. split.
  - intros i a b. apply (timeline_adjacent 0 segments i a b Hline).
  - intros a Ha. destruct segments as [|s rest]; [discriminate|].
    injection Ha as <-. apply Hline.
Qed.

(** A narrative without a marker and with some text gives one segment,
    whose duration is the estimate for the whole narrative. *)
Lemma createTimingSegments_single :
  Marker.exec_all narrative = [] -> truthy (trim narrative) = true ->
  createTimingSegments narrative style
  = [{| text := trim narrative; startTime := 0;
        Timing.duration := calculateSpeakingDuration narrative style |}].
Proof.
  intros Hnone Htext. unfold createTimingSegments, Marker.split.
  rewrite (scan_no_match narrative Hnone). cbn [map fold_left].
  unfold segment_step, Marker.String_match.
  now rewrite Hnone, Htext.
Qed.

Lemma calculateTotalDuration_no_marker :
  Marker.exec_all narrative = [] ->
  calculateTotalDuration narrative style
  = calculateSpeakingDuration narrative style + 0.
Proof.
  intros Hnone.
  unfold calculateTotalDuration, parseSilenceMarkers, Marker.replace_all.
  cbn [cleanText totalSilence].
  rewrite Hnone, (scan_no_match narrative Hnone). cbn.
  now rewrite app_nil_r.
Qed.

(** Claim C4 as amended: the segments are contiguous; when the list is
    not empty, the end of its last segment is the sum of the durations of
    its segments; and that end is [calculateTotalDuration narrative style]
    when the narrative holds no marker and is not blank. *)
Theorem createTimingSegments_timeline_end :
  let segments := createTimingSegments narrative style in
  (forall i a b,
      nth_error segments i = Some a -> nth_error segments (S i) = Some b ->
      startTime a + Timing.duration a = startTime b)
  /\ (segments <> [] ->
      Spec.timeline_end segments = Some (sum_durations segments))
  /\ (Marker.exec_all narrative = [] -> truthy (trim narrative) = true ->
      sum_durations segments == calculateTotalDuration narrative style).
Proof.
  intros segments.
  pose proof (createTimingSegments_timeline narrative style) as Hline.
  fold segments in Hline. repeat split.
  - intros i a b Ha Hb. symmetry.
    apply (timeline_adjacent 0 segments i a b Hline Ha Hb).
  - apply timeline_end_sum, Hline.
  - intros Hnone Htext. subst segments.
    rewrite (createTimingSegments_single Hnone Htext).
    rewrite (calculateTotalDuration_no_marker Hnone).
    unfold sum_durations. cbn. lra.
Qed.

(** Claim C10: a narrative of white space only (the empty one included)
    gives no segment, whatever the style; [calculateFrameDurations] then
    gives 3 seconds to every frame, also when the orchestrator has audio
    (the estimated audio duration of such a narrative is positive). *)
Theorem createTimingSegments_blank :
  forallb is_space narrative = true ->
  createTimingSegments narrative style = []
  /\ (forall frameCount,
        calculateFrameDurations frameCount
          (createTimingSegments narrative style)
        = repeat 3 frameCount)
  /\ (forall htmlFrames,
        Video.timing_step true (calculateTotalDuration narrative style)
          htmlFrames {| Video.fullNarrative := narrative |} style
        = repeat 3 (List.length htmlFrames)).
Proof.
  intros Hblank.
  assert (Hscan : Marker.scan narrative = [Marker.Text narrative])
    by apply scan_no_bracket, space_not_bracket, Hblank.
  assert (Hnone : Marker.exec_all narrative = [])
    by (unfold Marker.exec_all; now rewrite Hscan).
  assert (Hsegs : createTimingSegments narrative style = []).
  { unfold createTimingSegments, Marker.split. rewrite Hscan.
    cbn [map fold_left]. unfold segment_step, Marker.String_match.
    now rewrite Hnone, (trim_blank narrative Hblank). }
  assert (Hframes : forall frameCount,
             calculateFrameDurations frameCount [] = repeat 3 frameCount).
  { intros [|n]; reflexivity. }
  rewrite Hsegs. repeat split.
  - exact Hframes.
  - intros htmlFrames. unfold Video.timing_step.
    cbn [Video.fullNarrative]. rewrite Hsegs, Hframes.
    replace (Qle_bool (calculateTotalDuration narrative style) 0)
      with false; [reflexivity|].
    symmetry. apply not_true_is_false. intros Hle.
    apply Qle_bool_iff in Hle.
    rewrite (calculateTotalDuration_no_marker Hnone) in Hle.
    pose proof (calculateSpeakingDuration_floor narrative style). lra.
Qed.

End CreateTimingSegments.

(** Witness of C6 on scenario A: the pause starts where the first spoken
    segment ends, and the first segment starts at 0. *)
Lemma createTimingSegments_continuity_witness :
  let segments := createTimingSegments Examples.scenarioA technical in
  let nothing := {| text := []; startTime := 0; Timing.duration := 0 |} in
  startTime (nth 1 segments nothing)
  = startTime (nth 0 segments nothing)
    + Timing.duration (nth 0 segments nothing)
  /\ startTime (nth 0 segments nothing) = 0.
Proof.
  intros segments nothing.
  destruct (createTimingSegments_continuity Examples.scenarioA technical)
    as [Hadj Hfirst].
  split.
  - apply (Hadj 0%nat); vm_compute; reflexivity.
  - apply Hfirst; vm_compute; reflexivity.
Defined.

(** Witness of the amended C4 on a narrative without a marker. *)
Lemma createTimingSegments_timeline_end_witness :
  let segments := createTimingSegments Examples.six_words technical in
  Spec.timeline_end segments = Some (sum_durations segments)
  /\ sum_durations segments
     == calculateTotalDuration Examples.six_words technical.
Proof.
  pose proof (createTimingSegments_timeline_end Examples.six_words technical)
    as (_ & Hend & Htotal).
  split.
  - apply Hend. vm_compute. discriminate.
  - apply Htotal; reflexivity.
Defined.

(** Claim C4 fails as stated: on scenario A the timeline ends at 4.5 s (two
    spoken segments at the floor of 2 s each and a pause of 0.5 s), while
    [calculateTotalDuration] estimates the five words together and gives
    2.5 s. *)
Lemma createTimingSegments_end_not_total :
  match Spec.timeline_end
          (createTimingSegments Examples.scenarioA technical) with
  | Some e =>
      e == 45 # 10
      /\ calculateTotalDuration Examples.scenarioA technical == 25 # 10
      /\ ~ e == calculateTotalDuration Examples.scenarioA technical
  | None => False
  end.
Proof.
  vm_compute. repeat split; discriminate.
Qed.

(** Witness of C10 on a narrative of blanks and line breaks. *)
Lemma createTimingSegments_blank_witness :
  createTimingSegments [32; 10; 9; 160; 8232]%N overview = []
  /\ (forall frameCount,
        calculateFrameDurations frameCount
          (createTimingSegments [32; 10; 9; 160; 8232]%N overview)
        = repeat 3 frameCount)
  /\ (forall htmlFrames,
        Video.timing_step true
          (calculateTotalDuration [32; 10; 9; 160; 8232]%N overview)
          htmlFrames {| Video.fullNarrative := [32; 10; 9; 160; 8232]%N |}
          overview
        = repeat 3 (List.length htmlFrames)).
Proof.
  apply createTimingSegments_blank. reflexivity.
Defined.

(** ** The audio and timing steps of [generateVideo] *)

Section GenerateVideo.

Lemma audio_step_failed (c : Video.Collaborators) (script : Video.VideoScript)
    (style : PresentationStyle) :
  Spec.audio_failed c -> snd (Video.audio_step c script style) = false.
Proof.
  unfold Video.audio_step, Video.generateAudio, Video.validateAudio.
  intros [[e He] | [Hstat | Hstat]].
  - now rewrite He.
  - destruct (Video.tts_generateAudio c); simpl; [now rewrite Hstat | reflexivity].
  - destruct (Video.tts_generateAudio c); simpl; [now rewrite Hstat | reflexivity].
Qed.

Lemma interior_durations (n k start : nat) :
  (1 <= start)%nat -> (start + k <= n)%nat ->
  map (fun i : nat =>
         if ((Z.of_nat i =? 0) || (Z.of_nat i =? Z.of_nat (S n) - 1))%Z
         then 3 else 5)
      (seq start k)
  = repeat 5 k.
Proof.
  revert start. induction k as [|k IH]; intros start Hlow Hhigh;
    cbn [seq map repeat].
  - reflexivity.
  - rewrite IH by lia.
    destruct (Z.eqb_spec (Z.of_nat start) 0); [lia|].
    destruct (Z.eqb_spec (Z.of_nat start) (Z.of_nat (S n) - 1)); [lia|].
    reflexivity.
Qed.

Lemma default_durations_shape {A : Type} (htmlFrames : list A) :
  Video.default_durations htmlFrames
  = Spec.three_five_three (List.length htmlFrames).
Proof.
  unfold Video.default_durations.
  destruct (List.length htmlFrames) as [|[|k]]; try reflexivity.
  rewrite seq_S, map_app. cbn [seq map app Nat.add].
  rewrite (interior_durations (S k) k 1) by lia.
  unfold Spec.three_five_three.
  change (Z.of_nat 0 =? 0)%Z with true. cbn [orb].
  destruct (Z.eqb_spec (Z.of_nat (S k)) (Z.of_nat (S (S k)) - 1)); [|lia].
  now rewrite orb_true_r.
Qed.

Variable c : Video.Collaborators.
Variable script : Video.VideoScript.
Variable style : PresentationStyle.
Variables tempDir outputPath : Video.path.
Variables htmlFrames pngFrames : list Video.path.
Variable version : string.

(** Claim C7: when the speech synthesis raises, or leaves a missing or
    empty audio file, [generateVideo] goes on with [hasAudio = false] and
    with the fallback durations: 3 seconds for the first and the last
    frame, 5 seconds for the frames between them, so [3; 5; 3] for three
    frames.  With the other collaborators answering, the run succeeds and
    reports no audio; the compiler is given these durations and no audio
    file. *)
Theorem generateVideo_audio_failure :
  Spec.audio_failed c ->
  Video.generateFrames c = Video.Ok htmlFrames ->
  Video.initialize c = Video.Ok tt ->
  Video.convertFramesToPng c htmlFrames = Video.Ok pngFrames ->
  Video.checkFFmpeg c = Video.Ok true ->
  Video.getFFmpegVersion c = Video.Ok version ->
  Video.compileVideo c pngFrames (Video.default_durations htmlFrames)
    None outputPath = Video.Ok tt ->
  snd (Video.audio_step c script style) = false
  /\ Video.timing_step (snd (Video.audio_step c script style))
       (fst (Video.audio_step c script style)) htmlFrames script style
     = Spec.three_five_three (List.length htmlFrames)
  /\ Spec.three_five_three 3 = [3; 5; 3]
  /\ Video.generateVideo c script style tempDir outputPath
     = Video.Ok
         {| Video.videoPath := outputPath;
            Video.duration :=
              Video.sum_numbers
                (Spec.three_five_three (List.length htmlFrames));
            Video.frameCount := List.length htmlFrames;
            Video.hasAudio := false;
            Video.tempFiles := [tempDir] ++ htmlFrames ++ pngFrames |}.
Proof.
  intros Hfail Hframes Hinit Hpng Hcheck Hversion Hcompile.
  pose proof (audio_step_failed c script style Hfail) as Hsilent.
  rewrite <- (default_durations_shape htmlFrames).
  repeat split.
  - exact Hsilent.
  - now rewrite Hsilent.
  - unfold Video.generateVideo. rewrite Hframes. cbn [Video.bind].
    destruct (Video.audio_step c script style) as [audioDuration hasAudio].
    cbn [snd] in Hsilent. subst hasAudio.
    cbn [Video.timing_step andb].
    rewrite Hinit. cbn [Video.bind]. rewrite Hpng. cbn [Video.bind].
    rewrite Hcheck. cbn [Video.bind negb]. rewrite Hversion.
    cbn [Video.bind]. rewrite Hcompile. reflexivity.
Qed.

End GenerateVideo.

(** Witness of C7: a run of three frames whose speech synthesis raises. *)
Lemma generateVideo_audio_failure_witness :
  snd (Video.audio_step Examples.silent_run
         {| Video.fullNarrative := Examples.scenarioA |} technical) = false
  /\ Video.timing_step
       (snd (Video.audio_step Examples.silent_run
               {| Video.fullNarrative := Examples.scenarioA |} technical))
       (fst (Video.audio_step Examples.silent_run
               {| Video.fullNarrative := Examples.scenarioA |} technical))
       ["title.html"; "file.html"; "outro.html"]%string
       {| Video.fullNarrative := Examples.scenarioA |} technical
     = Spec.three_five_three 3
  /\ Spec.three_five_three 3 = [3; 5; 3]
  /\ Video.generateVideo Examples.silent_run
       {| Video.fullNarrative := Examples.scenarioA |} technical
       ".temp-video-0"%string "out.mp4"%string
     = Video.Ok
         {| Video.videoPath := "out.mp4"%string;
            Video.duration := Video.sum_numbers (Spec.three_five_three 3);
            Video.frameCount := 3;
            Video.hasAudio := false;
            Video.tempFiles :=
              [".temp-video-0"%string]
                ++ ["title.html"; "file.html"; "outro.html"]%string
                ++ ["title.png"; "file.png"; "outro.png"]%string |}.
Proof.
  apply (generateVideo_audio_failure Examples.silent_run
           {| Video.fullNarrative := Examples.scenarioA |} technical
           ".temp-video-0"%string "out.mp4"%string
           ["title.html"; "file.html"; "outro.html"]%string
           ["title.png"; "file.png"; "outro.png"]%string
           "ffmpeg version 6.0"%string).
  - left. exists "say: command not found"%string. reflexivity.
  - reflexivity.
  - reflexivity.
  - reflexivity.
  - reflexivity.
  - reflexivity.
  - reflexivity.
Defined.

(** ** [synchronizeFrames] *)

Section SynchronizeFrames.

Lemma synchronize_from_indices (ds : list Q) (i : nat) (t : Q) :
  map Sync.frameIndex (Sync.synchronize_from i t ds) = seq i (List.length ds).
Proof.
  revert i t. induction ds as [|d ds IH]; intros i t; simpl.
  - reflexivity.
  - now rewrite IH.
Qed.

Lemma synchronize_from_durations (ds : list Q) (i : nat) (t : Q) :
  map Sync.duration (Sync.synchronize_from i t ds) = ds.
Proof.
  revert i t. induction ds as [|d ds IH]; intros i t; simpl.
  - reflexivity.
  - now rewrite IH.
Qed.

Lemma synchronize_from_starts (ds : list Q) (i : nat) (t : Q) :
  map Sync.startTime (Sync.synchronize_from i t ds)
  = map (fun k => fold_left Qplus (firstn k ds) t) (seq 0 (List.length ds)).
Proof.
  revert i t. induction ds as [|d ds IH]; intros i t.
  - reflexivity.
  - cbn [Sync.synchronize_from map List.length seq firstn fold_left Sync.startTime].
    f_equal. rewrite (IH (S i) (t + d)), <- seq_shift, map_map.
    reflexivity.
Qed.

Lemma synchronize_from_snoc (ds : list Q) (d : Q) (i : nat) (t : Q) :
  Sync.synchronize_from i t (ds ++ [d])
  = Sync.synchronize_from i t ds
    ++ [{| Sync.frameIndex := i + List.length ds;
           Sync.startTime := fold_left Qplus ds t;
           Sync.duration := d |}].
Proof.
  revert i t. induction ds as [|d' ds IH]; intros i t; simpl.
  - now rewrite Nat.add_0_r.
  - rewrite IH. now rewrite Nat.add_succ_r.
Qed.

(** Extra X1: [synchronizeFrames] is the prefix-sum transform: entry [i]
    has [frameIndex = i], the duration it was given, and for start time
    the sum of the durations of the frames before it, added in order
    from 0. *)
Theorem synchronizeFrames_prefix_sums (frameDurations : list Q) :
  map Sync.frameIndex (Sync.synchronizeFrames frameDurations)
  = seq 0 (List.length frameDurations)
  /\ map Sync.duration (Sync.synchronizeFrames frameDurations)
     = frameDurations
  /\ map Sync.startTime (Sync.synchronizeFrames frameDurations)
     = map (fun i => Video.sum_numbers (firstn i frameDurations))
           (seq 0 (List.length frameDurations)).
Proof.
  repeat split.
  - apply synchronize_from_indices.
  - apply synchronize_from_durations.
  - apply synchronize_from_starts.
Qed.

Lemma playback_end_sum (frameDurations : list Q) :
  Sync.playback_end (Sync.synchronizeFrames frameDurations)
  = Video.sum_numbers frameDurations.
Proof.
  destruct frameDurations as [|d0 ds] using rev_ind; [reflexivity|].
  unfold Sync.synchronizeFrames, Sync.playback_end.
  rewrite synchronize_from_snoc, rev_unit. cbn [Sync.startTime Sync.duration].
  unfold Video.sum_numbers. now rewrite fold_left_app.
Qed.

(** The sum of the frame durations, as in the proof of conservation. *)
Lemma frame_durations_total (frameCount : nat) (segs : list NarrationTiming) :
  (1 <= frameCount)%nat -> segs <> [] ->
  Video.sum_numbers (calculateFrameDurations frameCount segs)
  == sum_durations segs.
Proof.
  intros Hf Hne. unfold calculateFrameDurations.
  destruct (Nat.eqb_spec frameCount 0) as [->|_]; [lia|].
  destruct (Nat.eqb_spec (List.length segs) 0) as [Hlen|_].
  { destruct segs; [congruence | discriminate]. }
  destruct (List.length segs <? frameCount)%nat.
  - rewrite sum_numbers_constant.
    pose proof (num_pos frameCount Hf). field. lra.
  - rewrite grouped_prefix_sum, firstn_all2; [reflexivity|].
    pose proof (ceil_groups_cover (List.length segs) frameCount Hf). lia.
Qed.

(** Extra X2: timing segments, frame durations and frame synchronisation
    compose: for at least one frame and a narrative that gives a segment,
    the last frame ends where the last timing segment ends. *)
Theorem playback_ends_with_narration (narrative : jsstring)
    (style : PresentationStyle) (frameCount : nat) :
  (1 <= frameCount)%nat ->
  createTimingSegments narrative style <> [] ->
  exists narration_end,
    Spec.timeline_end (createTimingSegments narrative style)
    = Some narration_end
    /\ Sync.playback_end
         (Sync.synchronizeFrames
            (calculateFrameDurations frameCount
               (createTimingSegments narrative style)))
       == narration_end.
Proof.
  intros Hf Hne. exists (sum_durations (createTimingSegments narrative style)).
  split.
  - apply timeline_end_sum; [apply createTimingSegments_timeline | exact Hne].
  - rewrite playback_end_sum. now apply frame_durations_total.
Qed.

End SynchronizeFrames.

Lemma playback_ends_with_narration_witness :
  exists narration_end,
    Spec.timeline_end (createTimingSegments Examples.scenarioA technical)
    = Some narration_end
    /\ Sync.playback_end
         (Sync.synchronizeFrames
            (calculateFrameDurations 2
               (createTimingSegments Examples.scenarioA technical)))
       == narration_end.
Proof.
  apply playback_ends_with_narration.
  - lia.
  - vm_compute. discriminate.
Defined.

(** ** Pauses and total duration *)

Section TotalDuration.

Lemma parseInt_from_nonneg (s : jsstring) (acc : Z) :
  (0 <= acc)%Z -> (0 <= parseInt_from acc s)%Z.
Proof.
  revert acc. induction s as [|c s IH]; intros acc Hacc;
    cbn [parseInt_from].
  - exact Hacc.
  - destruct (is_digit c) eqn:Hc; [|exact Hacc].
    apply IH. unfold is_digit in Hc. apply andb_prop in Hc as [Hlow _].
    apply N.leb_le in Hlow. unfold digit_value. lia.
Qed.

Lemma pause_nonneg (d : jsstring) : 0 <= parseInt d / 1000.
Proof.
  unfold parseInt.
  pose proof (parseInt_from_nonneg d 0 (Z.le_refl 0)) as H.
  apply Qle_shift_div_l; [reflexivity|].
  change (0 * 1000) with (inject_Z 0). now rewrite <- Zle_Qle.
Qed.

Lemma pauses_nonneg (ds : list jsstring) (t : Q) :
  t <= fold_left (fun total d => total + parseInt d / 1000) ds t.
Proof.
  revert t. induction ds as [|d ds IH]; intros t; cbn [fold_left].
  - lra.
  - specialize (IH (t + parseInt d / 1000)).
    pose proof (pause_nonneg d). lra.
Qed.

Lemma calculateTotalDuration_floor_helper (text : jsstring)
    (style : PresentationStyle) :
  2 <= calculateTotalDuration text style.
Proof.
  unfold calculateTotalDuration.
  pose proof (pauses_nonneg (Marker.exec_all text) 0).
  pose proof (calculateSpeakingDuration_floor
                (cleanText (parseSilenceMarkers text)) style).
  unfold parseSilenceMarkers at 2. cbn [totalSilence]. lra.
Qed.

(** Extra X3: [parseSilenceMarkers] never returns a negative
    [totalSilence], and [calculateTotalDuration] is at least the 2 seconds
    of the floor, for every text and style. *)
Theorem calculateTotalDuration_at_least_floor (text : jsstring)
    (style : PresentationStyle) :
  0 <= totalSilence (parseSilenceMarkers text)
  /\ 2 <= calculateTotalDuration text style.
Proof.
  assert (H : 0 <= totalSilence (parseSilenceMarkers text))
    by apply pauses_nonneg.
  split; [exact H|].
  unfold calculateTotalDuration.
  pose proof (calculateSpeakingDuration_floor
                (cleanText (parseSilenceMarkers text)) style).
  lra.
Qed.

Lemma scan_from_captures (ps : list Spec.piece) :
  Spec.all_well_formed ps ->
  forall acc,
    flat_map (fun p => match p with
                       | Marker.Text _ => []
                       | Marker.Match d => [d]
                       end)
             (Marker.scan_from 0 acc (Spec.render ps))
    = flat_map (fun p => match p with
                         | Spec.Plain _ => []
                         | Spec.Pause d => [d]
                         end) ps.
Proof.
  induction 1 as [|p ps' Hp _ IH]; intros acc.
  - reflexivity.
  - destruct p as [t|d]; simpl in Hp.
    + change (Spec.render (Spec.Plain t :: ps'))
        with (t ++ Spec.render ps').
      rewrite (scan_from_text t _ acc Hp). apply IH.
    + apply andb_prop in Hp as [Hne Hd].
      change (Spec.render (Spec.Pause d :: ps'))
        with (Marker.marker_text d ++ Spec.render ps').
      rewrite (scan_from_marker d _ acc Hne Hd).
      cbn [flat_map app]. now rewrite IH.
Qed.

Lemma pauses_of_pieces (ps : list Spec.piece) (t : Q) :
  fold_left (fun total d => total + parseInt d / 1000)
            (flat_map (fun p => match p with
                                | Spec.Plain _ => []
                                | Spec.Pause d => [d]
                                end) ps) t
  = fold_left (fun total p =>
                 match p with
                 | Spec.Plain _ => total
                 | Spec.Pause d => total + parseInt d / 1000
                 end) ps t.
Proof.
  revert t. induction ps as [|p ps IH]; intros t; [reflexivity|].
  destruct p as [txt|d]; cbn [flat_map app fold_left]; apply IH.
Qed.

(** Extra X4: for a narration made of well-formed markers and of text
    without an opening bracket, the loop of [parseSilenceMarkers] meets
    exactly the markers, in order: [totalSilence] is their milliseconds
    over 1000, added in order from 0. *)
Theorem parseSilenceMarkers_totalSilence (ps : list Spec.piece) :
  Spec.all_well_formed ps ->
  Marker.exec_all (Spec.render ps)
  = flat_map (fun p => match p with
                       | Spec.Plain _ => []
                       | Spec.Pause d => [d]
                       end) ps
  /\ totalSilence (parseSilenceMarkers (Spec.render ps))
     = fold_left (fun total p =>
                    match p with
                    | Spec.Plain _ => total
                    | Spec.Pause d => total + parseInt d / 1000
                    end) ps 0.
Proof.
  intros Hwf.
  assert (Hexec : Marker.exec_all (Spec.render ps)
                  = flat_map (fun p => match p with
                                       | Spec.Plain _ => []
                                       | Spec.Pause d => [d]
                                       end) ps)
    by apply (scan_from_captures ps Hwf []).
  split; [exact Hexec|].
  unfold parseSilenceMarkers. cbn [totalSilence]. rewrite Hexec.
  apply pauses_of_pieces.
Qed.

End TotalDuration.

Lemma parseSilenceMarkers_totalSilence_witness :
  Marker.exec_all
    (Spec.render [Spec.Pause (str "250"); Spec.Plain (str "One. ");
                  Spec.Pause (str "1000")])
  = flat_map (fun p => match p with
                       | Spec.Plain _ => []
                       | Spec.Pause d => [d]
                       end)
      [Spec.Pause (str "250"); Spec.Plain (str "One. ");
       Spec.Pause (str "1000")]
  /\ totalSilence
       (parseSilenceMarkers
          (Spec.render [Spec.Pause (str "250"); Spec.Plain (str "One. ");
                        Spec.Pause (str "1000")]))
     = fold_left (fun total p =>
                    match p with
                    | Spec.Plain _ => total
                    | Spec.Pause d => total + parseInt d / 1000
                    end)
         [Spec.Pause (str "250"); Spec.Plain (str "One. ");
          Spec.Pause (str "1000")] 0.
Proof.
  apply parseSilenceMarkers_totalSilence. repeat constructor.
Defined.

(** ** The segments of [createTimingSegments] *)

Section SegmentKinds.

Lemma trimStart_fixed (c : char) (s : jsstring) :
  is_space c = false -> trimStart (c :: s) = c :: s.
Proof. intros Hc. simpl. now rewrite Hc. Qed.

Lemma trim_idempotent (s : jsstring) : trim (trim s) = trim s.
Proof.
  unfold trim at 1.
  destruct (trim_head s) as [Hnil | (c & kept & Hc & Hcons)].
  - now rewrite Hnil.
  - rewrite Hcons, (trimStart_fixed c kept Hc), <- Hcons.
    apply trimEnd_idempotent.
Qed.

Lemma words_trim (s : jsstring) : words (trim s) = words s.
Proof. unfold words. now rewrite trim_idempotent. Qed.

(** A segment is a pause (no text, a duration that is not negative) or a
    stretch of speech (a trimmed text that is not empty, with the estimate
    for that text as its duration, at least the floor). *)
Lemma segment_step_kinds (style : PresentationStyle)
    (P := fun seg : NarrationTiming =>
            (Timing.text seg = [] /\ 0 <= Timing.duration seg)
            \/ (Timing.text seg <> []
                /\ trim (Timing.text seg) = Timing.text seg
                /\ Timing.duration seg
                   = calculateSpeakingDuration (Timing.text seg) style
                /\ 2 <= Timing.duration seg))
    (st : list NarrationTiming * Q) (part : jsstring) :
  Forall P (fst st) -> Forall P (fst (segment_step style st part)).
Proof.
  destruct st as [segments currentTime]. cbn [fst]. intros Hall.
  unfold segment_step.
  destruct (Marker.String_match part) as [digits|].
  - cbn [fst]. apply Forall_app. split; [exact Hall|].
    constructor; [|constructor]. left. cbn. split; [reflexivity|].
    apply pause_nonneg.
  - destruct (truthy (trim part)) eqn:Htext; [|exact Hall].
    cbn [fst]. apply Forall_app. split; [exact Hall|].
    constructor; [|constructor]. right.
    cbn [Timing.text Timing.duration]. repeat split.
    + intros E. now rewrite E in Htext.
    + apply trim_idempotent.
    + unfold calculateSpeakingDuration. now rewrite words_trim.
    + apply calculateSpeakingDuration_floor.
Qed.

(** Extra X5: every segment that [createTimingSegments] returns is either
    a pause, with an empty text and a duration that is not negative, or a
    stretch of speech, whose text is trimmed and not empty and whose
    duration is [calculateSpeakingDuration] of that text, hence at least
    2 seconds. *)
Theorem createTimingSegments_kinds (narrative : jsstring)
    (style : PresentationStyle) :
  Forall (fun seg =>
            (Timing.text seg = [] /\ 0 <= Timing.duration seg)
            \/ (Timing.text seg <> []
                /\ trim (Timing.text seg) = Timing.text seg
                /\ Timing.duration seg
                   = calculateSpeakingDuration (Timing.text seg) style
                /\ 2 <= Timing.duration seg))
         (createTimingSegments narrative style).
Proof.
  unfold createTimingSegments.
  generalize (Marker.split narrative). intros parts.
  assert (Hgen : forall st,
             Forall (fun seg =>
                       (Timing.text seg = [] /\ 0 <= Timing.duration seg)
                       \/ (Timing.text seg <> []
                           /\ trim (Timing.text seg) = Timing.text seg
                           /\ Timing.duration seg
                              = calculateSpeakingDuration (Timing.text seg) style
                           /\ 2 <= Timing.duration seg))
                    (fst st) ->
             Forall (fun seg =>
                       (Timing.text seg = [] /\ 0 <= Timing.duration seg)
                       \/ (Timing.text seg <> []
                           /\ trim (Timing.text seg) = Timing.text seg
                           /\ Timing.duration seg
                              = calculateSpeakingDuration (Timing.text seg) style
                           /\ 2 <= Timing.duration seg))
                    (fst (fold_left (segment_step style) parts st))).
  { induction parts as [|part parts IH]; intros st Hst; simpl.
    - exact Hst.
    - apply IH, segment_step_kinds, Hst. }
  apply Hgen. constructor.
Qed.

End SegmentKinds.

(** ** More on [calculateFrameDurations] *)

Section FrameGroups.

Variable segs : list NarrationTiming.

Lemma ceil_one (n : nat) : (1 <= n)%nat -> Math_ceil (num n / num n) = 1%nat.
Proof.
  intros Hn. unfold Math_ceil. pose proof (num_pos n Hn).
  assert (Hone : num n / num n == 1) by (field; lra).
  now rewrite Hone.
Qed.

Lemma slice_one (i : nat) (d : NarrationTiming) :
  (i < List.length segs)%nat ->
  slice (i * 1) (Math_min ((i + 1) * 1) (List.length segs)) segs
  = [nth i segs d].
Proof.
  intros Hi. unfold slice, Math_min.
  rewrite !Nat.mul_1_r, Nat.min_l by lia.
  replace (i + 1 - i)%nat with 1%nat by lia.
  revert i Hi. induction segs as [|s l IH]; intros i Hi; simpl in Hi; [lia|].
  destruct i as [|i]; [reflexivity|].
  simpl. apply IH. lia.
Qed.

(** Extra X6: with exactly as many frames as segments (at least one),
    frame [i] lasts as long as segment [i]. *)
Theorem calculateFrameDurations_one_segment_per_frame :
  segs <> [] ->
  calculateFrameDurations (List.length segs) segs
  = map (fun seg => 0 + Timing.duration seg) segs.
Proof.
  intros Hne.
  assert (Hn : (1 <= List.length segs)%nat).
  { destruct segs; [congruence | simpl; lia]. }
  unfold calculateFrameDurations.
  destruct (Nat.eqb_spec (List.length segs) 0) as [E|_]; [lia|].
  rewrite Nat.ltb_irrefl, (ceil_one _ Hn).
  set (none := {| Timing.text := []; startTime := 0; Timing.duration := 0 |}).
  apply (nth_ext _ _ 0 (0 + Timing.duration none)).
  - now rewrite !length_map, length_seq.
  - intros i Hi. rewrite length_map, length_seq in Hi.
    rewrite (map_nth (fun seg => 0 + Timing.duration seg) segs none i).
    rewrite (nth_indep _ 0 ((fun i => sum_durations
               (slice (i * 1) (Math_min ((i + 1) * 1) (List.length segs)) segs)) 0%nat))
      by now rewrite length_map, length_seq.
    rewrite (map_nth (fun i => sum_durations
               (slice (i * 1) (Math_min ((i + 1) * 1) (List.length segs)) segs))
               (seq 0 (List.length segs)) 0%nat i).
    rewrite seq_nth by exact Hi. cbn [Nat.add].
    now rewrite (slice_one i none Hi).
Qed.

End FrameGroups.

Lemma calculateFrameDurations_one_segment_per_frame_witness :
  calculateFrameDurations
    (List.length (createTimingSegments Examples.scenarioA technical))
    (createTimingSegments Examples.scenarioA technical)
  = map (fun seg => 0 + Timing.duration seg)
        (createTimingSegments Examples.scenarioA technical).
Proof.
  apply calculateFrameDurations_one_segment_per_frame.
  vm_compute. discriminate.
Defined.

Section GroupedFrames.

Variable frameCount : nat.
Variable segs : list NarrationTiming.

Lemma Forall_slice {A} (P : A -> Prop) (a b : nat) (l : list A) :
  Forall P l -> Forall P (slice a b l).
Proof.
  intros Hall. unfold slice.
  rewrite <- (firstn_skipn a l) in Hall. apply Forall_app in Hall as [_ Hall].
  rewrite <- (firstn_skipn (b - a) (skipn a l)) in Hall.
  now apply Forall_app in Hall as [Hall _].
Qed.

(** The duration that the grouped branch gives to frame [i]. *)
Lemma grouped_frame (i : nat) (d : Q) :
  (1 <= frameCount <= List.length segs)%nat ->
  nth_error (calculateFrameDurations frameCount segs) i = Some d ->
  (i < frameCount)%nat
  /\ d = sum_durations
           (slice (i * Math_ceil (num (List.length segs) / num frameCount))
                  (Math_min
                     ((i + 1) * Math_ceil (num (List.length segs) / num frameCount))
                     (List.length segs))
                  segs).
Proof.
  intros [Hf Hn] Hd. unfold calculateFrameDurations in Hd.
  destruct (Nat.eqb_spec frameCount 0) as [E|_]; [lia|].
  destruct (Nat.eqb_spec (List.length segs) 0) as [E|_]; [lia|].
  destruct (Nat.ltb_spec (List.length segs) frameCount) as [E|_]; [lia|].
  rewrite nth_error_map, nth_error_seq in Hd.
  destruct (Nat.ltb_spec i frameCount) as [Hi|Hi]; [|discriminate].
  cbn in Hd. injection Hd as <-. split; [exact Hi | reflexivity].
Qed.

(** Extra X7: when there are at most as many frames as segments and every
    segment has a positive duration, frame [i] has a positive duration
    exactly when its group starts inside the segment list, that is when
    [i * ceil(segments / frames)] is below the number of segments; the
    frames after that get 0. *)
Theorem calculateFrameDurations_positive_frames (i : nat) (d : Q) :
  (1 <= frameCount <= List.length segs)%nat ->
  Forall (fun s => 0 < Timing.duration s) segs ->
  nth_error (calculateFrameDurations frameCount segs) i = Some d ->
  (0 < d
   <-> (i * Math_ceil (num (List.length segs) / num frameCount)
        < List.length segs)%nat)
  /\ (~ 0 < d -> d = 0).
Proof.
  intros Hrange Hpos Hd.
  destruct (grouped_frame i d Hrange Hd) as [Hi ->].
  set (spf := Math_ceil (num (List.length segs) / num frameCount)).
  assert (Hspf : (1 <= spf)%nat).
  { pose proof (ceil_groups_cover (List.length segs) frameCount
                  (proj1 Hrange)) as Hcover.
    fold spf in Hcover. destruct spf; [lia | lia]. }
  destruct (Nat.lt_ge_cases (i * spf) (List.length segs)) as [Hin|Hout].
  - assert (Hsum : 0 < sum_durations
                         (slice (i * spf)
                            (Math_min ((i + 1) * spf) (List.length segs)) segs)).
    { apply sum_durations_pos; [now apply Forall_slice|].
      intros Hnil. apply (f_equal (@List.length _)) in Hnil.
      unfold slice, Math_min in Hnil.
      rewrite length_firstn, length_skipn in Hnil. simpl in Hnil. lia. }
    split; [tauto | intros Hno; contradiction].
  - assert (Hnil : slice (i * spf)
                     (Math_min ((i + 1) * spf) (List.length segs)) segs = []).
    { unfold slice. now rewrite skipn_all2, firstn_nil. }
    rewrite Hnil. unfold sum_durations. cbn [fold_left].
    split; [|reflexivity]. split; [intros H; lra | lia].
Qed.

End GroupedFrames.

(** Witness of X7: three frames for four segments; the third frame would
    start at segment 4, and gets 0. *)
Lemma calculateFrameDurations_positive_frames_witness :
  (0 < 0
   <-> (2 * Math_ceil
              (num (List.length
                      (createTimingSegments Examples.two_parts_two_pauses
                         technical)) / num 3)
        < List.length
            (createTimingSegments Examples.two_parts_two_pauses technical))%nat)
  /\ (~ 0 < 0 -> 0 = 0).
Proof.
  apply (calculateFrameDurations_positive_frames 3
           (createTimingSegments Examples.two_parts_two_pauses technical)
           2 0).
  - vm_compute. split; lia.
  - vm_compute. repeat constructor.
  - vm_compute. reflexivity.
Defined.

(** ** [generateVideo] with audio *)

Section GenerateVideoAudio.

Variable c : Video.Collaborators.
Variable script : Video.VideoScript.
Variable style : PresentationStyle.

(** Extra X8: when the speech synthesis returns and the audio file is not
    empty, [generateVideo] has audio, and its test [audioDuration > 0]
    never sends it to the default durations: they are those of
    [calculateFrameDurations] on the segments of the narrative, whatever
    the narrative. *)
Theorem generateVideo_audio_present (size : Z) (htmlFrames : list Video.path) :
  Video.tts_generateAudio c = Video.Ok tt ->
  Video.stat_size c = Some size -> (0 < size)%Z ->
  Video.audio_step c script style
  = (calculateTotalDuration (Video.fullNarrative script) style, true)
  /\ Video.timing_step true
       (calculateTotalDuration (Video.fullNarrative script) style)
       htmlFrames script style
     = calculateFrameDurations (List.length htmlFrames)
         (createTimingSegments (Video.fullNarrative script) style).
Proof.
  intros Htts Hstat Hsize. split.
  - unfold Video.audio_step, Video.generateAudio, Video.validateAudio.
    rewrite Htts, Hstat. cbn [Video.bind].
    apply Z.ltb_lt in Hsize. now rewrite Hsize.
  - unfold Video.timing_step.
    replace (Qle_bool (calculateTotalDuration (Video.fullNarrative script) style) 0)
      with false; [reflexivity|].
    symmetry. apply not_true_is_false. intros Hle. apply Qle_bool_iff in Hle.
    pose proof (calculateTotalDuration_floor_helper
                  (Video.fullNarrative script) style). lra.
Qed.

End GenerateVideoAudio.

(** ** The frames and images of one run *)

Section FramePaths.

Variable fw : Frames.World.
Variable outputDir : Video.path.


Lemma file_frames_succeed (files : list Frames.FileAnalysis) :
  (forall p, Frames.writeFile fw p = Video.Ok tt) ->
  forall frameIndex framePaths,
    Frames.file_frames fw outputDir frameIndex files framePaths
    = Video.Ok (framePaths ++ Frames.file_paths outputDir frameIndex files
                  ++ [Frames.outro_path outputDir (frameIndex + List.length files)]).
Proof.
  intros Hwrite.
  induction files as [|f files IH]; intros frameIndex framePaths;
    cbn [Frames.file_frames]; rewrite Hwrite; cbn [Video.bind].
  - now rewrite Nat.add_0_r.
  - rewrite IH, <- app_assoc. cbn [List.length].
    now rewrite Nat.add_succ_r.
Qed.

End FramePaths.

Lemma generateVideo_audio_present_witness :
  Video.audio_step Worlds.audible_run Worlds.script technical
  = (calculateTotalDuration (Video.fullNarrative Worlds.script) technical, true)
  /\ Video.timing_step true
       (calculateTotalDuration (Video.fullNarrative Worlds.script) technical)
       ["a.html"; "b.html"]%string Worlds.script technical
     = calculateFrameDurations 2
         (createTimingSegments (Video.fullNarrative Worlds.script) technical).
Proof.
  apply (generateVideo_audio_present Worlds.audible_run Worlds.script technical
           1024 ["a.html"; "b.html"]%string).
  - reflexivity.
  - reflexivity.
  - lia.
Defined.

(** ** [generateFrames] and [convertFramesToPng] *)

Section RunPaths.


Lemma generateFrames_succeed (fw : Frames.World)
    (files : list Frames.FileAnalysis) (outputDir : Video.path) :
  (forall p, Frames.mkdir fw p = Video.Ok tt) ->
  (forall p, Frames.writeFile fw p = Video.Ok tt) ->
  Frames.generateFrames fw files outputDir
  = Video.Ok (path_join outputDir "frame-000-title.html"%string
                :: Frames.file_paths outputDir 1 files
                ++ [Frames.outro_path outputDir (S (List.length files))]).
Proof.
  intros Hmkdir Hwrite. unfold Frames.generateFrames.
  rewrite Hmkdir, Hwrite. cbn [Video.bind].
  now rewrite (file_frames_succeed fw outputDir files Hwrite).
Qed.


Lemma convert_from_succeed (w : Compiler.World) (outputDir : Video.path)
    (htmlFrames : list Video.path) :
  (forall a b, Compiler.convertFile w a b = Video.Ok tt) ->
  forall i pngPaths,
    Compiler.convert_from w outputDir i htmlFrames pngPaths
    = Video.Ok (pngPaths
                  ++ map (Compiler.png_path outputDir)
                         (seq i (List.length htmlFrames))).
Proof.
  intros Hconvert.
  induction htmlFrames as [|h rest IH]; intros i pngPaths;
    cbn [Compiler.convert_from].
  - cbn. now rewrite app_nil_r.
  - rewrite Hconvert. cbn [Video.bind]. rewrite IH, <- app_assoc.
    reflexivity.
Qed.


End RunPaths.



(** ** A whole run of [generateVideo] on the frame generator and compiler *)

Lemma fold_left_Qplus_repeat (x : Q) (n : nat) (a : Q) :
  fold_left Qplus (repeat x n) a == a + num n * x.
Proof.
  revert a. induction n as [|n IH]; intros a.
  - unfold num. cbn. ring.
  - cbn [repeat fold_left]. rewrite IH. unfold num.
    rewrite Nat2Z.inj_succ. unfold Z.succ. rewrite inject_Z_plus. ring.
Qed.

Section WholeRun.

Lemma frame_durations_length (frameCount : nat) (segs : list NarrationTiming) :
  List.length (calculateFrameDurations frameCount segs) = frameCount.
Proof.
  unfold calculateFrameDurations.
  destruct (Nat.eqb_spec frameCount 0) as [->|_]; [reflexivity|].
  destruct (List.length segs =? 0)%nat; [apply repeat_length|].
  destruct (List.length segs <? frameCount)%nat;
    now rewrite length_map, length_seq.
Qed.

Lemma timing_step_length (hasAudio : bool) (audioDuration : Q)
    (htmlFrames : list Video.path) (script : Video.VideoScript)
    (style : PresentationStyle) :
  List.length (Video.timing_step hasAudio audioDuration htmlFrames script style)
  = List.length htmlFrames.
Proof.
  unfold Video.timing_step.
  destruct (hasAudio && negb (Qle_bool audioDuration 0)).
  - apply frame_durations_length.
  - unfold Video.default_durations. now rewrite length_map, length_seq.
Qed.

Variable fw : Frames.World.
Variable w : Compiler.World.

Hypothesis frames_mkdir : forall p, Frames.mkdir fw p = Video.Ok tt.
Hypothesis frames_write : forall p, Frames.writeFile fw p = Video.Ok tt.
Hypothesis converter_ready : Compiler.converter_initialize w = Video.Ok tt.
Hypothesis compiler_mkdir : forall p, Compiler.mkdir w p = Video.Ok tt.
Hypothesis converted : forall a b, Compiler.convertFile w a b = Video.Ok tt.
Hypothesis written : forall p text, Compiler.writeFile w p text = Video.Ok tt.
Hypothesis executed : forall cmd, exists out, Compiler.exec w cmd = Video.Ok out.
Hypothesis output_there : forall p, Compiler.stat w p = Video.Ok tt.
Hypothesis unlinked : forall p, Compiler.unlink w p = Video.Ok tt.

(** With frames to show and as many durations, [compileVideo] passes its
    two guards and returns. *)
Lemma compileVideo_succeeds (o : Compiler.Options)
    (pngFrames : list Video.path) (frameDurations : list Q)
    (audioPath : option Video.path) (outputPath : Video.path) :
  pngFrames <> [] -> List.length frameDurations = List.length pngFrames ->
  Compiler.compileVideo w o pngFrames frameDurations audioPath outputPath
  = Video.Ok tt.
Proof.
  intros Hne Hlen. unfold Compiler.compileVideo.
  destruct pngFrames as [|firstFrame rest]; [congruence|].
  rewrite Hlen, Nat.eqb_refl. cbn [negb].
  unfold Compiler.createConcatFile. rewrite written. cbn [Video.bind].
  match goal with
  | |- context [Compiler.exec w ?cmd] => destruct (executed cmd) as [out ->]
  end.
  cbn [Video.bind]. now rewrite output_there, unlinked.
Qed.

Variable files : list Frames.FileAnalysis.
Variables tempDir outputPath : Video.path.
Variable tts : Video.result unit.
Variable size : option Z.
Variable script : Video.VideoScript.
Variable style : PresentationStyle.

(** The result of the run, in terms of the outcome of the audio step. *)
Lemma generateVideo_whole_run :
  let c := Compiler.collaborators fw w files tempDir tts size in
  let htmlFrames :=
    path_join (path_join tempDir "frames-html") "frame-000-title.html"
      :: Frames.file_paths (path_join tempDir "frames-html") 1 files
      ++ [Frames.outro_path (path_join tempDir "frames-html")
            (S (List.length files))] in
  let audio := Video.audio_step c script style in
  exists pngFrames,
    Video.generateVideo c script style tempDir outputPath
    = Video.Ok
        {| Video.videoPath := outputPath;
           Video.duration :=
             Video.sum_numbers
               (Video.timing_step (snd audio) (fst audio) htmlFrames
                  script style);
           Video.frameCount := List.length htmlFrames;
           Video.hasAudio := snd audio;
           Video.tempFiles :=
             [tempDir] ++ htmlFrames
               ++ (if snd audio
                   then [(tempDir ++ "/narration.mp3")%string] else [])
               ++ pngFrames |}.
Proof.
  intros c htmlFrames audio.
  exists (map (Compiler.png_path (path_join tempDir "frames-png"))
              (seq 0 (List.length htmlFrames))).
  unfold Video.generateVideo.
  assert (Hframes : Video.generateFrames c = Video.Ok htmlFrames)
    by apply (generateFrames_succeed fw files _ frames_mkdir frames_write).
  rewrite Hframes. cbn [Video.bind].
  fold audio. destruct audio as [audioDuration hasAudio]. cbn [fst snd].
  assert (Hinit : Video.initialize c = Video.Ok tt) by exact converter_ready.
  rewrite Hinit. cbn [Video.bind].
  assert (Hpng : Video.convertFramesToPng c htmlFrames
                 = Video.Ok (map (Compiler.png_path (path_join tempDir "frames-png"))
                                 (seq 0 (List.length htmlFrames)))).
  { unfold c. cbn [Compiler.collaborators Video.convertFramesToPng].
    unfold Compiler.convertFramesToPng. rewrite compiler_mkdir.
    cbn [Video.bind].
    now rewrite (convert_from_succeed w _ htmlFrames converted). }
  rewrite Hpng. cbn [Video.bind].
  assert (Hcheck : Video.checkFFmpeg c = Video.Ok true).
  { unfold c. cbn [Compiler.collaborators Video.checkFFmpeg].
    unfold Compiler.checkFFmpeg.
    destruct (executed "ffmpeg -version"%string) as [out ->]. reflexivity. }
  rewrite Hcheck. cbn [Video.bind negb].
  assert (Hversion : exists v, Video.getFFmpegVersion c = Video.Ok v)
    by (eexists; reflexivity).
  destruct Hversion as [v ->]. cbn [Video.bind].
  assert (Hcompile :
            forall ds a,
              List.length ds = List.length htmlFrames ->
              Video.compileVideo c
                (map (Compiler.png_path (path_join tempDir "frames-png"))
                     (seq 0 (List.length htmlFrames)))
                ds a outputPath = Video.Ok tt).
  { intros ds a Hds. apply compileVideo_succeeds.
    - subst htmlFrames. discriminate.
    - now rewrite length_map, length_seq. }
  rewrite Hcompile by apply timing_step_length.
  reflexivity.
Qed.

(** Extra X11: on the frame generator and the compiler of the source,
    when the file system, the converter and FFmpeg do not fail,
    [generateVideo] returns, whatever the analysis, the narrative, the
    style and the outcome of the speech synthesis: neither guard of
    [compileVideo] ("No frames to compile", "Frame count mismatch") is
    met.  It reports two more frames than files and audio exactly when the
    synthesis returned and left a file that is not empty. *)
Theorem generateVideo_returns :
  exists r,
    Video.generateVideo
      (Compiler.collaborators fw w files tempDir tts size)
      script style tempDir outputPath = Video.Ok r
    /\ Video.videoPath r = outputPath
    /\ Video.frameCount r = (List.length files + 2)%nat
    /\ (Video.hasAudio r = true
        <-> tts = Video.Ok tt /\ exists bytes, size = Some bytes /\ (0 < bytes)%Z).
Proof.
  destruct generateVideo_whole_run as [pngFrames Hrun].
  eexists. split; [exact Hrun|]. cbn [Video.videoPath Video.frameCount Video.hasAudio].
  split; [reflexivity|]. split.
  - cbn [List.length]. rewrite length_app. unfold Frames.file_paths.
    rewrite length_map, length_combine, length_seq. cbn [List.length]. lia.
  - unfold Video.audio_step, Video.generateAudio, Video.validateAudio.
    cbn [Compiler.collaborators Video.tts_generateAudio Video.stat_size].
    destruct tts as [[]|e]; cbn [Video.bind snd].
    + destruct size as [bytes|].
      * rewrite Z.ltb_lt. split.
        -- intros Hb. split; [reflexivity|]. now exists bytes.
        -- intros [_ (b & Hb & Hpos)]. now injection Hb as ->.
      * split; [discriminate|]. intros [_ (b & Hb & _)]. discriminate.
    + split; [discriminate|]. intros [Hno _]. discriminate.
Qed.

(** Extra X12: the duration that such a run reports.  Without audio it is
    6 seconds plus 5 seconds per file.  With audio it is the sum of the
    durations of the timing segments of the narrative, or, for a narrative
    that gives no segment, 3 seconds per frame. *)
Theorem generateVideo_reported_duration (r : Video.VideoGenerationResult) :
  Video.generateVideo
    (Compiler.collaborators fw w files tempDir tts size)
    script style tempDir outputPath = Video.Ok r ->
  (Video.hasAudio r = false ->
   Video.duration r == 6 + 5 * num (List.length files))
  /\ (Video.hasAudio r = true ->
      createTimingSegments (Video.fullNarrative script) style <> [] ->
      Video.duration r
      == sum_durations (createTimingSegments (Video.fullNarrative script) style))
  /\ (Video.hasAudio r = true ->
      createTimingSegments (Video.fullNarrative script) style = [] ->
      Video.duration r == 3 * num (List.length files + 2)).
Proof.
  destruct generateVideo_whole_run as [pngFrames Hrun].
  rewrite Hrun. intros Hr. injection Hr as <-.
  cbn [Video.duration Video.hasAudio].
  set (c := Compiler.collaborators fw w files tempDir tts size).
  set (htmlFrames := _ :: _ ++ [_]).
  assert (Hcount : List.length htmlFrames = S (S (List.length files))).
  { subst htmlFrames. cbn [List.length]. rewrite length_app.
    unfold Frames.file_paths.
    rewrite length_map, length_combine, length_seq. cbn [List.length]. lia. }
  assert (Haudio : snd (Video.audio_step c script style) = true ->
                   Video.timing_step true
                     (fst (Video.audio_step c script style))
                     htmlFrames script style
                   = calculateFrameDurations (List.length htmlFrames)
                       (createTimingSegments (Video.fullNarrative script) style)).
  { unfold Video.audio_step, Video.generateAudio.
    destruct (Video.tts_generateAudio c); cbn [Video.bind fst snd];
      [|discriminate].
    intros _. unfold Video.timing_step.
    replace (Qle_bool (calculateTotalDuration (Video.fullNarrative script) style) 0)
      with false; [reflexivity|].
    symmetry. apply not_true_is_false. intros Hle. apply Qle_bool_iff in Hle.
    pose proof (calculateTotalDuration_floor_helper
                  (Video.fullNarrative script) style). lra. }
  repeat split.
  - intros Hsilent. rewrite Hsilent. cbn [Video.timing_step andb].
    rewrite default_durations_shape.
    replace (Spec.three_five_three _)
      with (Spec.three_five_three (S (S (List.length files))))
      by (f_equal; symmetry; exact Hcount).
    cbn [Spec.three_five_three]. unfold Video.sum_numbers.
    cbn [fold_left]. rewrite fold_left_app. cbn [fold_left].
    rewrite fold_left_Qplus_repeat. ring.
  - intros Hloud Hsegs. rewrite Hloud, (Haudio Hloud).
    apply frame_durations_total; [|exact Hsegs].
    change (1 <= List.length htmlFrames)%nat. lia.
  - intros Hloud Hsegs. rewrite Hloud, (Haudio Hloud), Hsegs.
    replace (calculateFrameDurations _ [])
      with (calculateFrameDurations (S (S (List.length files))) [])
      by (f_equal; symmetry; exact Hcount).
    cbn [calculateFrameDurations Nat.eqb List.length].
    unfold Video.sum_numbers. rewrite fold_left_Qplus_repeat.
    replace (List.length files + 2)%nat with (S (S (List.length files))) by lia.
    ring.
Qed.

End WholeRun.

Lemma generateVideo_returns_witness :
  exists r,
    Video.generateVideo
      (Compiler.collaborators Worlds.frames_ok Worlds.compiler_ok
         Worlds.two_files ".temp-video-0"%string
         (Video.Throw "edge-tts: not found"%string) None)
      Worlds.script technical ".temp-video-0"%string "out.mp4"%string
    = Video.Ok r
    /\ Video.videoPath r = "out.mp4"%string
    /\ Video.frameCount r = (List.length Worlds.two_files + 2)%nat
    /\ (Video.hasAudio r = true
        <-> Video.Throw "edge-tts: not found"%string = Video.Ok tt
            /\ exists bytes, None = Some bytes /\ (0 < bytes)%Z).
Proof.
  apply (generateVideo_returns Worlds.frames_ok Worlds.compiler_ok);
    first [intros; reflexivity | intros; eexists; reflexivity].
Defined.

Lemma generateVideo_reported_duration_witness :
  match Video.generateVideo
          (Compiler.collaborators Worlds.frames_ok Worlds.compiler_ok
             Worlds.two_files ".temp-video-0"%string
             (Video.Throw "edge-tts: not found"%string) None)
          Worlds.script technical ".temp-video-0"%string "out.mp4"%string
  with
  | Video.Ok r =>
      (Video.hasAudio r = false ->
       Video.duration r == 6 + 5 * num (List.length Worlds.two_files))
      /\ (Video.hasAudio r = true ->
          createTimingSegments (Video.fullNarrative Worlds.script) technical
          <> [] ->
          Video.duration r
          == sum_durations
               (createTimingSegments (Video.fullNarrative Worlds.script)
                  technical))
      /\ (Video.hasAudio r = true ->
          createTimingSegments (Video.fullNarrative Worlds.script) technical
          = [] ->
          Video.duration r == 3 * num (List.length Worlds.two_files + 2))
  | Video.Throw _ => False
  end.
Proof.
  destruct (Video.generateVideo _ _ _ _ _) as [r|e] eqn:Hrun.
  - exact (generateVideo_reported_duration
             Worlds.frames_ok Worlds.compiler_ok
             (fun _ => eq_refl) (fun _ => eq_refl) eq_refl
             (fun _ => eq_refl) (fun _ _ => eq_refl) (fun _ _ => eq_refl)
             (fun _ => ex_intro _ "ffmpeg version 6.0"%string eq_refl)
             (fun _ => eq_refl) (fun _ => eq_refl)
             Worlds.two_files ".temp-video-0"%string "out.mp4"%string
             (Video.Throw "edge-tts: not found"%string) None
             Worlds.script technical r Hrun).
  - vm_compute in Hrun. discriminate.
Defined.

(** ** [escapeHtml] and [sanitizeFilename] *)

Section Escaping.

Lemma replace_unit_flat_map (c : char) (rep : jsstring)
    (f : char -> jsstring) (s : jsstring) :
  replace_unit c rep (flat_map f s)
  = flat_map (fun x => replace_unit c rep (f x)) s.
Proof.
  induction s as [|x s IH]; cbn [flat_map].
  - reflexivity.
  - rewrite <- IH. unfold replace_unit. now rewrite flat_map_app.
Qed.

Lemma replace_unit_single (c : char) (rep : jsstring) (s : jsstring) :
  replace_unit c rep s = flat_map (fun x => replace_unit c rep [x]) s.
Proof.
  unfold replace_unit. apply flat_map_ext. intros x. cbn [flat_map].
  now rewrite app_nil_r.
Qed.

Lemma escape_one (x : char) :
  replace_unit 39%N (str "&#039;")
    (replace_unit 34%N (str "&quot;")
       (replace_unit 62%N (str "&gt;")
          (replace_unit 60%N (str "&lt;")
             (replace_unit 38%N (str "&amp;") [x]))))
  = Frames.entity x.
Proof.
  unfold Frames.entity.
  destruct (N.eqb_spec x 38) as [->|H38]; [reflexivity|].
  destruct (N.eqb_spec x 60) as [->|H60]; [reflexivity|].
  destruct (N.eqb_spec x 62) as [->|H62]; [reflexivity|].
  destruct (N.eqb_spec x 34) as [->|H34]; [reflexivity|].
  destruct (N.eqb_spec x 39) as [->|H39]; [reflexivity|].
  unfold replace_unit. cbn [flat_map app].
  apply N.eqb_neq in H38, H60, H62, H34, H39.
  rewrite H38. cbn [flat_map app]. rewrite H60. cbn [flat_map app].
  rewrite H62. cbn [flat_map app]. rewrite H34. cbn [flat_map app].
  now rewrite H39.
Qed.

Lemma entity_no_markup (x : char) :
  forallb (fun c => negb (Frames.markup_unit c)) (Frames.entity x) = true.
Proof.
  unfold Frames.entity.
  destruct (N.eqb_spec x 38) as [->|H38]; [reflexivity|].
  destruct (N.eqb_spec x 60) as [->|H60]; [reflexivity|].
  destruct (N.eqb_spec x 62) as [->|H62]; [reflexivity|].
  destruct (N.eqb_spec x 34) as [->|H34]; [reflexivity|].
  destruct (N.eqb_spec x 39) as [->|H39]; [reflexivity|].
  apply N.eqb_neq in H60, H62, H34, H39.
  cbn [forallb]. unfold Frames.markup_unit.
  now rewrite H60, H62, H34, H39.
Qed.

(** Extra X13: the five replacements of [escapeHtml], done one after the
    other with the ampersand first, amount to one pass that puts each
    special character's entity in its place (no entity is escaped twice);
    the result holds no [<], [>], double quote or single quote. *)
Theorem escapeHtml_one_pass (text : jsstring) :
  Frames.escapeHtml text = flat_map Frames.entity text
  /\ forallb (fun c => negb (Frames.markup_unit c)) (Frames.escapeHtml text)
     = true.
Proof.
  assert (Hpass : Frames.escapeHtml text = flat_map Frames.entity text).
  { unfold Frames.escapeHtml.
    rewrite (replace_unit_single 38%N).
    rewrite !replace_unit_flat_map.
    apply flat_map_ext. intros x. apply escape_one. }
  split; [exact Hpass|]. rewrite Hpass. clear Hpass.
  induction text as [|x text IH]; [reflexivity|].
  cbn [flat_map]. rewrite forallb_app, IH, entity_no_markup. reflexivity.
Qed.

Lemma collapse_from_firstn_fixed (s : jsstring) :
  forall (b : bool) (n : nat),
    Frames.collapse_from b (firstn n (Frames.collapse_from b s))
    = firstn n (Frames.collapse_from b s).
Proof.
  induction s as [|c s IH]; intros b n; cbn [Frames.collapse_from].
  - now rewrite firstn_nil.
  - destruct (c =? Frames.underscore)%N eqn:Hc.
    + destruct b; [apply IH|].
      destruct n as [|n]; [reflexivity|].
      cbn [firstn Frames.collapse_from]. rewrite Hc. now rewrite IH.
    + destruct n as [|n]; [reflexivity|].
      cbn [firstn Frames.collapse_from]. rewrite Hc. now rewrite IH.
Qed.

Lemma Forall_collapse_from (P : char -> Prop) (s : jsstring) (b : bool) :
  Forall P s -> Forall P (Frames.collapse_from b s).
Proof.
  intros Hall. revert b.
  induction Hall as [|c s Hc _ IH]; intros b; cbn [Frames.collapse_from].
  - constructor.
  - destruct (c =? Frames.underscore)%N; [destruct b|];
      try (constructor; [exact Hc|]); apply IH.
Qed.

Lemma Forall_firstn_units (P : char -> Prop) (n : nat) (s : jsstring) :
  Forall P s -> Forall P (firstn n s).
Proof.
  intros Hall. rewrite <- (firstn_skipn n s) in Hall.
  now apply Forall_app in Hall as [Hall _].
Qed.

Lemma replace_other_units_kept (c : char) :
  (if Frames.filename_unit c then c else Frames.underscore) = c
  <-> Frames.filename_unit c = true \/ c = Frames.underscore.
Proof.
  destruct (Frames.filename_unit c) eqn:Hc.
  - split; [now left | reflexivity].
  - split; [intros <-; now right|].
    intros [H | ->]; [discriminate | reflexivity].
Qed.

(** Extra X14: [sanitizeFilename] returns at most 50 code units, each of
    them a letter, a digit, a dot, a hyphen or an underscore (so no path
    separator), and it changes nothing in a name it has already
    sanitised. *)
Theorem sanitizeFilename_safe (filename : jsstring) :
  (List.length (Frames.sanitizeFilename filename) <= 50)%nat
  /\ Forall (fun c => Frames.filename_unit c = true \/ c = Frames.underscore)
            (Frames.sanitizeFilename filename)
  /\ Frames.sanitizeFilename (Frames.sanitizeFilename filename)
     = Frames.sanitizeFilename filename.
Proof.
  assert (Hunits :
            Forall (fun c => Frames.filename_unit c = true
                             \/ c = Frames.underscore)
                   (Frames.sanitizeFilename filename)).
  { unfold Frames.sanitizeFilename, substring0, Frames.collapse_underscores.
    apply Forall_firstn_units, Forall_collapse_from.
    unfold Frames.replace_other_units. apply Forall_map.
    apply Forall_forall. intros c _.
    destruct (Frames.filename_unit c) eqn:Hc; [now left | now right]. }
  repeat split.
  - unfold Frames.sanitizeFilename, substring0. rewrite length_firstn. lia.
  - exact Hunits.
  - unfold Frames.sanitizeFilename at 1.
    assert (Hmap : Frames.replace_other_units (Frames.sanitizeFilename filename)
                   = Frames.sanitizeFilename filename).
    { unfold Frames.replace_other_units.
      induction Hunits as [|c r Hc _ IH]; [reflexivity|].
      cbn [map]. rewrite IH. f_equal. now apply replace_other_units_kept. }
    rewrite Hmap. unfold Frames.sanitizeFilename, substring0,
      Frames.collapse_underscores.
    rewrite collapse_from_firstn_fixed, firstn_firstn. now rewrite Nat.min_id.
Qed.

End Escaping.

(** ** [formatTimestamp] *)

Section FormatTimestamp.

Lemma Qfloor_unique (x : Q) (z : Z) :
  inject_Z z <= x -> x < inject_Z (z + 1) -> Qfloor x = z.
Proof.
  intros Hlow Hhigh.
  pose proof (Qfloor_le x) as Hle. pose proof (Qlt_floor x) as Hlt.
  assert (H1 : inject_Z z < inject_Z (Qfloor x + 1)) by lra.
  assert (H2 : inject_Z (Qfloor x) < inject_Z (z + 1)) by lra.
  rewrite <- Zlt_Qlt in H1, H2. lia.
Qed.

Lemma Qfloor_div (x : Q) (k : Z) :
  (0 < k)%Z -> Qfloor (x / inject_Z k) = (Qfloor x / k)%Z.
Proof.
  intros Hk.
  pose proof (Qfloor_le x) as Hle. pose proof (Qlt_floor x) as Hlt.
  rewrite inject_Z_plus in Hlt. change (inject_Z 1) with 1 in Hlt.
  assert (Hkq : 0 < inject_Z k).
  { change 0 with (inject_Z 0). now rewrite <- Zlt_Qlt. }
  pose proof (Z.div_mod (Qfloor x) k ltac:(lia)) as Hdm.
  pose proof (Z.mod_pos_bound (Qfloor x) k Hk) as Hmod.
  set (q := (Qfloor x / k)%Z) in *. set (r := (Qfloor x mod k)%Z) in *.
  assert (Hfloor : inject_Z (Qfloor x) == inject_Z k * inject_Z q + inject_Z r).
  { rewrite <- inject_Z_mult, <- inject_Z_plus. now rewrite <- Hdm. }
  assert (Hr0 : 0 <= inject_Z r).
  { change 0 with (inject_Z 0). rewrite <- Zle_Qle. lia. }
  assert (Hr1 : inject_Z r + 1 <= inject_Z k).
  { change 1 with (inject_Z 1). rewrite <- inject_Z_plus, <- Zle_Qle. lia. }
  apply Qfloor_unique.
  - apply Qle_shift_div_l; [exact Hkq|]. rewrite Qmult_comm. lra.
  - apply Qlt_shift_div_r; [exact Hkq|].
    rewrite inject_Z_plus. change (inject_Z 1) with 1.
    rewrite Qmult_comm.
    assert (inject_Z k * (inject_Z q + 1)
            == inject_Z k * inject_Z q + inject_Z k) by ring.
    lra.
Qed.

Lemma Qfloor_sub (x : Q) (z : Z) :
  Qfloor (x - inject_Z z) = (Qfloor x - z)%Z.
Proof.
  pose proof (Qfloor_le x) as Hle. pose proof (Qlt_floor x) as Hlt.
  rewrite inject_Z_plus in Hlt. change (inject_Z 1) with 1 in Hlt.
  apply Qfloor_unique.
  - unfold Z.sub. rewrite inject_Z_plus, inject_Z_opp. lra.
  - replace (Qfloor x - z + 1)%Z with (Qfloor x + 1 + - z)%Z by lia.
    rewrite !inject_Z_plus, inject_Z_opp. change (inject_Z 1) with 1. lra.
Qed.

Lemma Number_rem_nonneg (x : Q) (k : Z) :
  0 <= x -> (0 < k)%Z ->
  Number_rem x (inject_Z k) == x - inject_Z (k * (Qfloor x / k)).
Proof.
  intros Hx Hk. unfold Number_rem, truncate.
  assert (Hkq : 0 < inject_Z k).
  { change 0 with (inject_Z 0). now rewrite <- Zlt_Qlt. }
  assert (Hdiv : 0 <= x / inject_Z k).
  { apply Qle_shift_div_l; [exact Hkq | lra]. }
  apply Qle_bool_iff in Hdiv. rewrite Hdiv.
  rewrite (Qfloor_div x k Hk), inject_Z_mult. reflexivity.
Qed.

Variable seconds : Q.
Hypothesis seconds_nonneg : 0 <= seconds.

Lemma hours_value : Sync.hours seconds = (Qfloor seconds / 3600)%Z.
Proof.
  unfold Sync.hours, Math_floor.
  change 3600 with (inject_Z 3600). now apply Qfloor_div.
Qed.

Lemma minutes_value :
  Sync.minutes seconds
  = (Qfloor seconds / 60 - 60 * (Qfloor seconds / 3600))%Z.
Proof.
  unfold Sync.minutes, Math_floor.
  change 3600 with (inject_Z 3600).
  rewrite (Number_rem_nonneg seconds 3600 seconds_nonneg) by lia.
  assert (Heq : (seconds - inject_Z (3600 * (Qfloor seconds / 3600))) / 60
                == seconds / inject_Z 60
                   - inject_Z (60 * (Qfloor seconds / 3600))).
  { rewrite !inject_Z_mult. change (inject_Z 3600) with 3600.
    change (inject_Z 60) with 60. field. }
  rewrite Heq, Qfloor_sub, Qfloor_div by lia. reflexivity.
Qed.

Lemma secs_value :
  Sync.secs seconds = (Qfloor seconds - 60 * (Qfloor seconds / 60))%Z.
Proof.
  unfold Sync.secs, Math_floor.
  change 60 with (inject_Z 60).
  rewrite (Number_rem_nonneg seconds 60 seconds_nonneg) by lia.
  apply Qfloor_sub.
Qed.

Lemma ms_value :
  Sync.ms seconds
  = Qfloor ((seconds - inject_Z (Qfloor seconds)) * 1000).
Proof.
  unfold Sync.ms, Math_floor.
  change 1 with (inject_Z 1) at 1.
  rewrite (Number_rem_nonneg seconds 1 seconds_nonneg) by lia.
  now rewrite Z.mul_1_l, Z.div_1_r.
Qed.

(** The ranges of the fields of a time stamp. *)
Lemma timestamp_ranges :
  (0 <= Sync.hours seconds)%Z
  /\ (0 <= Sync.minutes seconds < 60)%Z
  /\ (0 <= Sync.secs seconds < 60)%Z
  /\ (0 <= Sync.ms seconds < 1000)%Z.
Proof.
  rewrite hours_value, minutes_value, secs_value, ms_value.
  pose proof (Qfloor_le seconds) as Hle.
  pose proof (Qlt_floor seconds) as Hlt.
  set (F := Qfloor seconds) in *.
  assert (HF : (0 <= F)%Z).
  { assert (inject_Z 0 < inject_Z (F + 1)) by (change (inject_Z 0) with 0; lra).
    rewrite <- Zlt_Qlt in H. lia. }
  rewrite inject_Z_plus in Hlt. change (inject_Z 1) with 1 in Hlt.
  set (frac := (seconds - inject_Z F) * 1000).
  pose proof (Qfloor_le frac) as Hfle. pose proof (Qlt_floor frac) as Hflt.
  rewrite inject_Z_plus in Hflt. change (inject_Z 1) with 1 in Hflt.
  assert (Hms : (0 <= Qfloor frac < 1000)%Z).
  { assert (H0 : inject_Z 0 < inject_Z (Qfloor frac + 1)).
    { rewrite inject_Z_plus. change (inject_Z 0) with 0.
      change (inject_Z 1) with 1. unfold frac in *. lra. }
    assert (H1 : inject_Z (Qfloor frac) < inject_Z 1000).
    { change (inject_Z 1000) with 1000. unfold frac in *. lra. }
    rewrite <- Zlt_Qlt in H0, H1. lia. }
  assert (Hnested : (F / 3600 = F / 60 / 60)%Z)
    by (rewrite Z.div_div by lia; reflexivity).
  pose proof (Z.div_pos F 60 HF ltac:(lia)) as Hsixty.
  pose proof (Z.mod_pos_bound (F / 60) 60 ltac:(lia)) as Hmin.
  pose proof (Z.mod_pos_bound F 60 ltac:(lia)) as Hsec.
  rewrite Z.mod_eq in Hmin, Hsec by lia.
  repeat split; lia.
Qed.


End FormatTimestamp.


Section TimestampFormat.

Lemma two_digits_checked :
  forallb (fun n =>
             if list_eq_dec N.eq_dec
                  (padStart 2 Sync.zero (Number_toString (Z.of_nat n)))
                  (Sync.two_digits (Z.of_nat n))
             then true else false)
          (seq 0 100) = true.
Proof. vm_compute. reflexivity. Qed.

Lemma three_digits_checked :
  forallb (fun n =>
             if list_eq_dec N.eq_dec
                  (padStart 3 Sync.zero (Number_toString (Z.of_nat n)))
                  (Sync.three_digits (Z.of_nat n))
             then true else false)
          (seq 0 1000) = true.
Proof. vm_compute. reflexivity. Qed.

(** Below 100 a number is printed and padded to its two digits. *)
Lemma padStart_two_digits (z : Z) :
  (0 <= z < 100)%Z ->
  padStart 2 Sync.zero (Number_toString z) = Sync.two_digits z.
Proof.
  intros Hz. pose proof two_digits_checked as Hall.
  rewrite forallb_forall in Hall.
  specialize (Hall (Z.to_nat z)). rewrite Z2Nat.id in Hall by lia.
  destruct (list_eq_dec N.eq_dec _ _) as [Heq|_]; [exact Heq|].
  assert (false = true); [|discriminate].
  apply Hall. apply in_seq. lia.
Qed.

Lemma padStart_three_digits (z : Z) :
  (0 <= z < 1000)%Z ->
  padStart 3 Sync.zero (Number_toString z) = Sync.three_digits z.
Proof.
  intros Hz. pose proof three_digits_checked as Hall.
  rewrite forallb_forall in Hall.
  specialize (Hall (Z.to_nat z)). rewrite Z2Nat.id in Hall by lia.
  destruct (list_eq_dec N.eq_dec _ _) as [Heq|_]; [exact Heq|].
  assert (false = true); [|discriminate].
  apply Hall. apply in_seq. lia.
Qed.

(** Extra X16: for a time from 0 up to (not including) 100 hours,
    [formatTimestamp] returns the twelve code units [HH:MM:SS.mmm]: the
    two decimal digits of the hours, of the minutes and of the seconds and
    the three of the milliseconds, zero-padded, with colons and a dot
    between them. *)
Theorem formatTimestamp_format (seconds : Q) :
  0 <= seconds -> seconds < 360000 ->
  Sync.formatTimestamp seconds
  = Sync.two_digits (Sync.hours seconds) ++ str ":"
    ++ Sync.two_digits (Sync.minutes seconds) ++ str ":"
    ++ Sync.two_digits (Sync.secs seconds) ++ str "."
    ++ Sync.three_digits (Sync.ms seconds)
  /\ List.length (Sync.formatTimestamp seconds) = 12%nat.
Proof.
  intros Hlow Hhigh.
  destruct (timestamp_ranges seconds Hlow) as (Hh & Hm & Hs & Hf).
  assert (Hh100 : (Sync.hours seconds < 100)%Z).
  { rewrite (hours_value seconds).
    pose proof (Qfloor_le seconds) as Hle.
    assert (HF : inject_Z (Qfloor seconds) < inject_Z 360000)
      by (change (inject_Z 360000) with 360000; lra).
    rewrite <- Zlt_Qlt in HF.
    apply Z.div_lt_upper_bound; lia. }
  assert (Hformat :
            Sync.formatTimestamp seconds
            = Sync.two_digits (Sync.hours seconds) ++ str ":"
              ++ Sync.two_digits (Sync.minutes seconds) ++ str ":"
              ++ Sync.two_digits (Sync.secs seconds) ++ str "."
              ++ Sync.three_digits (Sync.ms seconds)).
  { unfold Sync.formatTimestamp.
    now rewrite !padStart_two_digits, padStart_three_digits by lia. }
  split; [exact Hformat|]. rewrite Hformat. reflexivity.
Qed.

End TimestampFormat.

Lemma formatTimestamp_format_witness :
  Sync.formatTimestamp (14645 # 4)
  = Sync.two_digits (Sync.hours (14645 # 4)) ++ str ":"
    ++ Sync.two_digits (Sync.minutes (14645 # 4)) ++ str ":"
    ++ Sync.two_digits (Sync.secs (14645 # 4)) ++ str "."
    ++ Sync.three_digits (Sync.ms (14645 # 4))
  /\ List.length (Sync.formatTimestamp (14645 # 4)) = 12%nat.
Proof.
  apply formatTimestamp_format.
  - vm_compute. discriminate.
  - vm_compute. reflexivity.
Defined.

(** ** Guards and fatal errors *)

Section Guards.

Variable w : Compiler.World.
Variable o : Compiler.Options.

(** [compileVideo] refuses an empty list of frames and a list of
    durations of another length, whatever the file system and FFmpeg would
    answer; a call that returns had at least one frame and one duration
    per frame. *)
Lemma compileVideo_guards (pngFrames : list Video.path)
    (frameDurations : list Q) (audioPath : option Video.path)
    (outputPath : Video.path) :
  (pngFrames = [] ->
   Compiler.compileVideo w o pngFrames frameDurations audioPath outputPath
   = Video.Throw "No frames to compile"%string)
  /\ (pngFrames <> [] ->
      List.length frameDurations <> List.length pngFrames ->
      Compiler.compileVideo w o pngFrames frameDurations audioPath outputPath
      = Video.Throw
          ("Frame count mismatch: " ++ Compiler.count (List.length pngFrames)
           ++ " frames, " ++ Compiler.count (List.length frameDurations)
           ++ " durations")%string)
  /\ (Compiler.compileVideo w o pngFrames frameDurations audioPath outputPath
      = Video.Ok tt ->
      pngFrames <> []
      /\ List.length frameDurations = List.length pngFrames).
Proof.
  unfold Compiler.compileVideo. repeat split.
  - intros ->. reflexivity.
  - intros Hne Hlen. destruct pngFrames as [|f rest]; [congruence|].
    apply Nat.eqb_neq in Hlen. now rewrite Hlen.
  - destruct pngFrames; [discriminate | discriminate].
  - destruct pngFrames as [|f rest]; [discriminate|].
    destruct (Nat.eqb_spec (List.length frameDurations)
                (List.length (f :: rest))) as [E|_]; [exact E|].
    discriminate.
Qed.

End Guards.

Section MissingFFmpeg.

Variable fw : Frames.World.
Variable w : Compiler.World.
Variable files : list Frames.FileAnalysis.
Variables tempDir outputPath : Video.path.
Variable tts : Video.result unit.
Variable size : option Z.
Variable script : Video.VideoScript.
Variable style : PresentationStyle.


End MissingFFmpeg.


(** ** Order of the estimates *)

Section EstimateOrder.

Lemma Math_max_monotone (x y : Q) :
  x <= y -> Math_max 2 x <= Math_max 2 y.
Proof.
  intros Hxy.
  destruct (Qlt_le_dec 2 x) as [Hx|Hx].
  - rewrite (Math_max_r 2 x Hx), (Math_max_r 2 y) by lra. exact Hxy.
  - rewrite (Math_max_l 2 x Hx). apply Math_max_lower.
Qed.

(** Extra X18: the estimate never decreases with the number of words, and
    for one text it never increases with the speaking rate: overview is at
    most technical, which is at most beginner (for every text, also under
    the floor). *)
Theorem calculateSpeakingDuration_monotone (a b : jsstring)
    (style : PresentationStyle) :
  (Spec.wordCount a <= Spec.wordCount b)%nat ->
  calculateSpeakingDuration a style <= calculateSpeakingDuration b style
  /\ calculateSpeakingDuration a overview
     <= calculateSpeakingDuration a technical
  /\ calculateSpeakingDuration a technical
     <= calculateSpeakingDuration a beginner.
Proof.
  intros Hab. unfold calculateSpeakingDuration.
  assert (Hwords : num (words a) <= num (words b)).
  { unfold num. rewrite <- Zle_Qle, !words_wordCount. lia. }
  assert (Hpos : 0 <= num (words a)).
  { unfold num. change 0 with (inject_Z 0). rewrite <- Zle_Qle. lia. }
  repeat split; apply Math_max_monotone; rewrite !raw_duration.
  - destruct style; lra.
  - lra.
  - lra.
Qed.

End EstimateOrder.

Lemma calculateSpeakingDuration_monotone_witness :
  calculateSpeakingDuration Examples.three_words overview
  <= calculateSpeakingDuration Examples.six_words overview
  /\ calculateSpeakingDuration Examples.three_words overview
     <= calculateSpeakingDuration Examples.three_words technical
  /\ calculateSpeakingDuration Examples.three_words technical
     <= calculateSpeakingDuration Examples.three_words beginner.
Proof.
  apply calculateSpeakingDuration_monotone. vm_compute. lia.
Defined.

(** ** The scan of any narrative *)

Section AnyScan.

Lemma strip_prefix_inv (p s r : jsstring) :
  Marker.strip_prefix p s = Some r -> s = p ++ r.
Proof.
  revert s. induction p as [|a p IH]; intros s; cbn [Marker.strip_prefix].
  - intros H. now injection H as ->.
  - destruct s as [|b s]; [discriminate|].
    destruct (N.eqb_spec a b) as [->|_]; [|discriminate].
    intros H. now rewrite (IH s H).
Qed.

Lemma span_digits_inv (s d t : jsstring) :
  Marker.span_digits s = (d, t) ->
  s = d ++ t /\ forallb is_digit d = true.
Proof.
  revert d t. induction s as [|c s IH]; intros d t; cbn [Marker.span_digits].
  - intros H. injection H as <- <-. now split.
  - destruct (is_digit c) eqn:Hc.
    + destruct (Marker.span_digits s) as [d' t'].
      intros H. injection H as <- <-.
      destruct (IH d' t' eq_refl) as [-> Hd]. split; [reflexivity|].
      cbn [forallb]. now rewrite Hc, Hd.
    + intros H. injection H as <- <-. now split.
Qed.

(** A match is a marker with one or more digits, at the head. *)
Lemma match_at_inv (s d : jsstring) :
  Marker.match_at s = Some d ->
  truthy d = true /\ forallb is_digit d = true
  /\ exists rest, s = Marker.marker_text d ++ rest.
Proof.
  unfold Marker.match_at.
  destruct (Marker.strip_prefix Marker.opening s) as [r|] eqn:Hopen;
    [|discriminate].
  destruct (Marker.span_digits r) as [d' t] eqn:Hspan.
  destruct d' as [|c d']; [discriminate|].
  destruct (Marker.strip_prefix Marker.closing t) as [t'|] eqn:Hclose;
    [|discriminate].
  intros H. injection H as <-.
  apply strip_prefix_inv in Hopen, Hclose.
  apply span_digits_inv in Hspan as [Hr Hd].
  repeat split; [exact Hd|].
  exists t'. unfold Marker.marker_text.
  rewrite Hopen, Hr, Hclose, <- !app_assoc. reflexivity.
Qed.

Lemma match_at_extend (v s : jsstring) :
  Marker.match_at (v ++ s) = None -> Marker.match_at v = None.
Proof.
  intros Hnone. destruct (Marker.match_at v) as [d|] eqn:Hv; [|reflexivity].
  apply match_at_inv in Hv as (Hne & Hd & rest & ->).
  rewrite <- app_assoc, (match_at_marker d _ Hne Hd) in Hnone.
  discriminate.
Qed.

(** The scan of a narrative gives clean parts: no match starts inside a
    stretch of text, and every match is a well-formed marker. *)
Lemma scan_from_clean (s : jsstring) :
  forall skip acc,
    (skip = 0%nat ->
     forall u v, rev acc = u ++ v -> v <> [] ->
                 Marker.match_at (v ++ s) = None) ->
    (skip <> 0%nat -> acc = []) ->
    Forall Parts.clean (Marker.scan_from skip acc s).
Proof.
  induction s as [|c s IH]; intros skip acc Hacc Hskip;
    cbn [Marker.scan_from].
  - constructor; [|constructor]. intros u v Huv.
    destruct v as [|x v]; [reflexivity|].
    destruct skip as [|k].
    + specialize (Hacc eq_refl u (x :: v) Huv ltac:(discriminate)).
      now rewrite app_nil_r in Hacc.
    + rewrite (Hskip ltac:(discriminate)) in Huv.
      destruct u; discriminate.
  - destruct skip as [|k].
    + destruct (Marker.match_at (c :: s)) as [d|] eqn:Hmatch.
      * constructor; [|constructor].
        -- intros u v Huv. destruct v as [|x v]; [reflexivity|].
           apply (match_at_extend _ (c :: s)).
           apply (Hacc eq_refl u (x :: v) Huv). discriminate.
        -- apply match_at_inv in Hmatch as (Hne & Hd & _). now split.
        -- apply IH.
           ++ intros _ u v Huv Hv. destruct u; destruct v; try discriminate.
              congruence.
           ++ reflexivity.
      * apply IH; [|intros H; congruence].
        intros _ u v Huv Hv. cbn [rev] in Huv.
        destruct (exists_last Hv) as (v' & x & ->).
        rewrite app_assoc in Huv. apply app_inj_tail in Huv as [Hrev <-].
        rewrite <- app_assoc. cbn [app].
        destruct v' as [|y v'].
        -- exact Hmatch.
        -- apply (Hacc eq_refl u (y :: v') Hrev). discriminate.
    + apply IH.
      * intros ->. intros u v Huv Hv.
        rewrite (Hskip ltac:(discriminate)) in Huv.
        destruct u; destruct v; try discriminate. congruence.
      * intros _. apply Hskip. discriminate.
Qed.

Lemma scan_clean (s : jsstring) : Forall Parts.clean (Marker.scan s).
Proof.
  apply scan_from_clean; [|congruence].
  intros _ u v Huv Hv. destruct u; destruct v; try discriminate. congruence.
Qed.

Lemma scan_from_clean_text (t : jsstring) :
  forall acc,
    (forall u v, t = u ++ v -> Marker.match_at v = None) ->
    Marker.scan_from 0 acc t = [Marker.Text (rev acc ++ t)].
Proof.
  induction t as [|c t IH]; intros acc Hclean; cbn [Marker.scan_from].
  - now rewrite app_nil_r.
  - rewrite (Hclean [] (c :: t) eq_refl).
    rewrite IH.
    + cbn [rev]. now rewrite <- app_assoc.
    + intros u v Huv. apply (Hclean (c :: u) v). now rewrite Huv.
Qed.

Lemma String_match_text (t : jsstring) :
  Parts.clean (Marker.Text t) -> Marker.String_match t = None.
Proof.
  intros Hclean. unfold Marker.String_match, Marker.exec_all, Marker.scan.
  now rewrite (scan_from_clean_text t [] Hclean).
Qed.

Lemma String_match_marker (d : jsstring) :
  Parts.clean (Marker.Match d) ->
  Marker.String_match (Marker.marker_text d) = Some d.
Proof.
  intros [Hne Hd]. unfold Marker.String_match, Marker.exec_all, Marker.scan.
  rewrite <- (app_nil_r (Marker.marker_text d)).
  now rewrite (scan_from_marker d [] [] Hne Hd).
Qed.

End AnyScan.

(** ** Segments against the total estimate *)

Section SegmentsAndTotal.

Variable style : PresentationStyle.

Lemma sum_durations_snoc (segs : list NarrationTiming) (x : NarrationTiming) :
  sum_durations (segs ++ [x]) == sum_durations segs + Timing.duration x.
Proof.
  rewrite sum_durations_app, sum_durations_cons.
  change (sum_durations []) with 0. lra.
Qed.

(** The loop of [createTimingSegments] over clean parts adds the pauses
    and the estimates of the stretches that are not blank. *)
Lemma segments_total (parts : list Marker.part) :
  Forall Parts.clean parts ->
  forall st,
    sum_durations
      (fst (fold_left (segment_step style) (map Parts.part_string parts) st))
    == sum_durations (fst st)
       + Parts.pause_total parts + Parts.speech_total style parts.
Proof.
  induction 1 as [|p parts Hp _ IH]; intros [segments currentTime].
  - cbn. lra.
  - cbn [map fold_left]. rewrite IH. unfold segment_step.
    destruct p as [t|d]; cbn [Parts.part_string Parts.pause_total Parts.speech_total].
    + rewrite (String_match_text t Hp).
      destruct (truthy (trim t)); cbn [fst].
      * rewrite sum_durations_snoc. cbn [Timing.duration]. lra.
      * lra.
    + rewrite (String_match_marker d Hp). cbn [fst].
      rewrite sum_durations_snoc. cbn [Timing.duration]. lra.
Qed.

Lemma totalSilence_total (parts : list Marker.part) (t : Q) :
  fold_left (fun total d => total + parseInt d / 1000)
    (flat_map (fun p => match p with
                        | Marker.Text _ => []
                        | Marker.Match d => [d]
                        end) parts) t
  == t + Parts.pause_total parts.
Proof.
  revert t. induction parts as [|p parts IH]; intros t.
  - cbn. lra.
  - destruct p as [txt|d]; cbn [flat_map app fold_left Parts.pause_total];
      rewrite IH; lra.
Qed.




Lemma truthy_trim_wordCount (t : jsstring) :
  truthy (trim t) = true <-> (1 <= Spec.wordCount t)%nat.
Proof.
  unfold Spec.wordCount.
  rewrite <- (count_tokens_trimStart t).
  rewrite <- (count_tokens_trimEnd (trimStart t) false). fold (trim t).
  destruct (trim_head t) as [-> | (c & kept & Hc & ->)].
  - cbn. split; [discriminate | lia].
  - rewrite count_tokens_cons, Hc. cbn. split; [lia | reflexivity].
Qed.

Lemma truthy_trim_false (t : jsstring) :
  truthy (trim t) = false -> Spec.wordCount t = 0%nat.
Proof.
  intros H. destruct (Nat.eq_dec (Spec.wordCount t) 0) as [E|E]; [exact E|].
  assert (Htrue : truthy (trim t) = true) by (apply truthy_trim_wordCount; lia).
  congruence.
Qed.






Lemma speech_total_blank (parts : list Marker.part) :
  forallb is_space
    (flat_map (fun p => match p with
                        | Marker.Text t => t
                        | Marker.Match _ => []
                        end) parts) = true ->
  Parts.speech_total style parts = 0.
Proof.
  induction parts as [|p parts IH]; [reflexivity|].
  destruct p as [t|d]; cbn [flat_map Parts.speech_total]; [|exact IH].
  rewrite forallb_app. intros H. apply andb_prop in H as [Ht Hrest].
  rewrite (trim_blank t Ht). cbn [truthy]. now apply IH.
Qed.

End SegmentsAndTotal.

Section TimelineAndEstimate.

Variable narrative : jsstring.
Variable style : PresentationStyle.


Lemma wordCount_blank (s : jsstring) :
  forallb is_space s = true -> Spec.wordCount s = 0%nat.
Proof.
  intros Hblank. apply truthy_trim_false.
  now rewrite (trim_blank s Hblank).
Qed.


(** Extra X20: when the text left by removing the markers is blank (a
    narrative of pauses only), the durations of the segments add up to the
    pauses alone, exactly 2 seconds less than [calculateTotalDuration],
    which adds the floor for the empty speech. *)
Theorem createTimingSegments_pauses_only :
  forallb is_space (cleanText (parseSilenceMarkers narrative)) = true ->
  calculateTotalDuration narrative style
  == sum_durations (createTimingSegments narrative style) + 2.
Proof.
  intros Hblank.
  pose proof (scan_clean narrative) as Hclean.
  pose proof (segments_total style (Marker.scan narrative) Hclean ([], 0))
    as Hsegs.
  change (sum_durations (fst ([], 0))) with 0 in Hsegs.
  change (fst (fold_left (segment_step style)
                 (map Parts.part_string (Marker.scan narrative)) ([], 0)))
    with (createTimingSegments narrative style) in Hsegs.
  rewrite Hsegs. unfold calculateTotalDuration.
  assert (Hsilence : totalSilence (parseSilenceMarkers narrative)
                     == 0 + Parts.pause_total (Marker.scan narrative))
    by apply totalSilence_total.
  rewrite Hsilence.
  rewrite (speech_total_blank style (Marker.scan narrative) Hblank).
  assert (Hcsd : calculateSpeakingDuration
                   (cleanText (parseSilenceMarkers narrative)) style = 2).
  { unfold calculateSpeakingDuration. apply Math_max_l.
    apply Qlt_le_weak, duration_under_floor.
    rewrite words_wordCount, (wordCount_blank _ Hblank). cbn. lia. }
  rewrite Hcsd. ring.
Qed.

End TimelineAndEstimate.


Lemma createTimingSegments_pauses_only_witness :
  calculateTotalDuration (str " [[slnc 500]] [[slnc 250]]") beginner
  == sum_durations
       (createTimingSegments (str " [[slnc 500]] [[slnc 250]]") beginner)
     + 2.
Proof.
  apply createTimingSegments_pauses_only. reflexivity.
Defined.
